(** * Cross-Model Prompt Architect: conversation controller and prompt
      generation client

    A shallow embedding of [services/geminiService.ts] (the prompt generation
    client, [generatePrompt]) and of the [App] component (the conversation
    controller: [handleSend], [handleCopy], [clearHistory]), followed by the
    properties of the specification that concern them.

    Layout: the JavaScript substrate the code relies on (strings, [trim],
    number printing, [JSON.parse], property access, truthiness), then the
    client, then the controller as an event-driven state machine, then the
    theorems. *)

From Stdlib Require Import List ZArith NArith Bool String Ascii Lia DecimalString.
From Stdlib Require DecimalZ.
Import ListNotations.
Local Open Scope Z_scope.
Set Warnings "-register-all".

(* ================================================================== *)
(** ** JavaScript strings *)
(* ================================================================== *)

(** A JavaScript string is a sequence of UTF-16 code units. *)
Definition jsstring := list N.

(** ASCII literals of the source, as code units. *)
Definition lit (s : string) : jsstring :=
  map N_of_ascii (list_ascii_of_string s).

Definition ch (a : ascii) : N := N_of_ascii a.
Arguments ch a%_char.

Definition dquote : N := 34%N.

(** A literal of the source that contains double quotes, written with a
    backquote in the place of each. *)
Definition qlit (s : string) : jsstring :=
  map (fun c => if (c =? 96)%N then dquote else c) (lit s).

Fixpoint str_eqb (a b : jsstring) : bool :=
  match a, b with
  | [], [] => true
  | x :: a', y :: b' => N.eqb x y && str_eqb a' b'
  | _, _ => false
  end.

Definition isEmptyString (s : jsstring) : bool :=
  match s with [] => true | _ => false end.

(** ECMAScript WhiteSpace and LineTerminator code points, the ones
    [String.prototype.trim] removes.  All of them are in the basic
    multilingual plane, hence single code units. *)
Definition isWhiteSpace (c : N) : bool :=
  ((9 <=? c) && (c <=? 13)          (* TAB, LF, VT, FF, CR *)
   || (c =? 32)                     (* SPACE *)
   || (c =? 160)                    (* NO-BREAK SPACE *)
   || (c =? 5760)                   (* U+1680 *)
   || ((8192 <=? c) && (c <=? 8202)) (* U+2000 .. U+200A *)
   || (c =? 8232) || (c =? 8233)    (* LINE / PARAGRAPH SEPARATOR *)
   || (c =? 8239)                   (* U+202F *)
   || (c =? 8287)                   (* U+205F *)
   || (c =? 12288)                  (* U+3000 *)
   || (c =? 65279))%N.              (* U+FEFF *)

Fixpoint trimStart (s : jsstring) : jsstring :=
  match s with
  | c :: r => if isWhiteSpace c then trimStart r else s
  | [] => []
  end.

Definition trimEnd (s : jsstring) : jsstring := rev (trimStart (rev s)).

(** [String.prototype.trim]. *)
Definition trim (s : jsstring) : jsstring := trimEnd (trimStart s).

(** [Number.prototype.toString] on an integral number.  The numbers the
    program prints are clock readings and their successors, integers far
    below 10^21, which JavaScript prints in plain decimal notation. *)
Definition Number_toString (z : Z) : jsstring :=
  lit (NilZero.string_of_int (Z.to_int z)).

(** Thrown values are error objects. *)
Record Error := mkError { name : jsstring; message : jsstring }.

(** A promise settles, or a block completes, with a value or a thrown error. *)
Inductive Completion (A : Type) :=
| Fulfilled (a : A)
| Rejected (e : Error).
Arguments Fulfilled {A} a.
Arguments Rejected {A} e.

(* ================================================================== *)
(** ** JSON values and [JSON.parse] *)
(* ================================================================== *)

Module JSON.

(** The values [JSON.parse] can return.  A number keeps the exact decimal
    value of its literal, (-1)^neg * mantissa * 10^exponent; the rounding to
    a double is applied where a number is inspected ([ToBoolean]).  An
    object is the list of its own properties, one entry per key. *)
Inductive value :=
| JNull
| JBool (b : bool)
| JNumber (neg : bool) (mantissa : N) (exponent : Z)
| JString (s : jsstring)
| JArray (elements : list value)
| JObject (properties : list (jsstring * value)).

(** [CreateDataProperty]: a repeated key overwrites the earlier value. *)
Fixpoint obj_set (k : jsstring) (v : value) (ps : list (jsstring * value))
  : list (jsstring * value) :=
  match ps with
  | [] => [(k, v)]
  | (k', v') :: r =>
      if str_eqb k k' then (k, v) :: r else (k', v') :: obj_set k v r
  end.

Fixpoint obj_get (k : jsstring) (ps : list (jsstring * value)) : option value :=
  match ps with
  | [] => None
  | (k', v) :: r => if str_eqb k k' then Some v else obj_get k r
  end.

(** JSON white space: TAB, LF, CR, SPACE only. *)
Definition isJSONWhiteSpace (c : N) : bool :=
  ((c =? 9) || (c =? 10) || (c =? 13) || (c =? 32))%N.

Fixpoint skip_ws (s : jsstring) : jsstring :=
  match s with
  | c :: r => if isJSONWhiteSpace c then skip_ws r else s
  | [] => []
  end.

Fixpoint strip_prefix (p s : jsstring) : option jsstring :=
  match p, s with
  | [], _ => Some s
  | x :: p', y :: s' => if N.eqb x y then strip_prefix p' s' else None
  | _ :: _, [] => None
  end.

Definition isDigit (c : N) : bool := ((48 <=? c) && (c <=? 57))%N.

Definition hexDigit (c : N) : option N :=
  if ((48 <=? c) && (c <=? 57))%N then Some (c - 48)%N
  else if ((65 <=? c) && (c <=? 70))%N then Some (c - 55)%N
  else if ((97 <=? c) && (c <=? 102))%N then Some (c - 87)%N
  else None.

(** A run of decimal digits: the number read so far, how many digits were
    read, and the rest of the input. *)
Fixpoint digits (s : jsstring) (acc : N) (count : nat) : N * nat * jsstring :=
  match s with
  | c :: r => if isDigit c then digits r (acc * 10 + (c - 48))%N (S count)
              else (acc, count, s)
  | [] => (acc, count, [])
  end.

(** JSONNumber: an optional minus sign; an integer part, [0] or a digit
    run that does not start with [0]; an optional fraction, a point and at
    least one digit; an optional exponent, [e] or [E], an optional sign and
    at least one digit. *)
Definition number_sign (s : jsstring) : bool * jsstring :=
  match s with
  | c :: r => if (c =? ch "-")%N then (true, r) else (false, s)
  | [] => (false, s)
  end.

Definition number_int (s : jsstring) : option (N * jsstring) :=
  match s with
  | c :: r =>
      if (c =? ch "0")%N then Some (0%N, r)
      else if isDigit c then
        let '(n, _, r') := digits s 0%N O in Some (n, r')
      else None
  | [] => None
  end.

(** The fraction goes on with the digits of the integer part [n], and
    lowers the exponent by the number of its digits. *)
Definition number_frac (n : N) (s : jsstring) : option (N * Z * jsstring) :=
  match s with
  | c :: r =>
      if (c =? ch ".")%N then
        let '(m, k, r') := digits r n O in
        match k with
        | O => None
        | S _ => Some (m, - Z.of_nat k, r')
        end
      else Some (n, 0, s)
  | [] => Some (n, 0, s)
  end.

Definition number_exp (s : jsstring) : option (Z * jsstring) :=
  match s with
  | c :: r =>
      if ((c =? ch "e") || (c =? ch "E"))%N then
        let (eneg, r1) :=
          match r with
          | d :: r' =>
              if (d =? ch "-")%N then (true, r')
              else if (d =? ch "+")%N then (false, r')
              else (false, r)
          | [] => (false, r)
          end in
        let '(x, k, r2) := digits r1 0%N O in
        match k with
        | O => None
        | S _ => Some (if eneg then - Z.of_N x else Z.of_N x, r2)
        end
      else Some (0, s)
  | [] => Some (0, s)
  end.

Definition parse_number (s : jsstring) : option (value * jsstring) :=
  let (neg, s1) := number_sign s in
  match number_int s1 with
  | None => None
  | Some (n, s2) =>
      match number_frac n s2 with
      | None => None
      | Some (m, e, s3) =>
          match number_exp s3 with
          | None => None
          | Some (x, s4) => Some (JNumber neg m (e + x), s4)
          end
      end
  end.

(** The characters of a JSONString after its opening quote, up to and
    including the closing quote.  Each round consumes at least one code unit,
    so [length s] rounds are enough for the input [s]. *)
Fixpoint parse_chars (fuel : nat) (s : jsstring) (acc : jsstring)
  : option (jsstring * jsstring) :=
  match fuel with
  | O => None
  | S fuel' =>
      match s with
      | [] => None
      | c :: r =>
          if (c =? dquote)%N then Some (acc, r)
          else if (c =? ch "\")%N then
            match r with
            | [] => None
            | d :: r' =>
                if (d =? dquote)%N then parse_chars fuel' r' (acc ++ [34%N])
                else if (d =? ch "\")%N then parse_chars fuel' r' (acc ++ [92%N])
                else if (d =? ch "/")%N then parse_chars fuel' r' (acc ++ [47%N])
                else if (d =? ch "b")%N then parse_chars fuel' r' (acc ++ [8%N])
                else if (d =? ch "f")%N then parse_chars fuel' r' (acc ++ [12%N])
                else if (d =? ch "n")%N then parse_chars fuel' r' (acc ++ [10%N])
                else if (d =? ch "r")%N then parse_chars fuel' r' (acc ++ [13%N])
                else if (d =? ch "t")%N then parse_chars fuel' r' (acc ++ [9%N])
                else if (d =? ch "u")%N then
                  match r' with
                  | h1 :: h2 :: h3 :: h4 :: r'' =>
                      match hexDigit h1, hexDigit h2, hexDigit h3, hexDigit h4 with
                      | Some a, Some b, Some c', Some d' =>
                          parse_chars fuel' r''
                            (acc ++ [((a * 16 + b) * 16 + c') * 16 + d'])%N
                      | _, _, _, _ => None
                      end
                  | _ => None
                  end
                else None
            end
          else if (c <? 32)%N then None
          else parse_chars fuel' r (acc ++ [c])
      end
  end.

Definition parse_string (s : jsstring) : option (jsstring * jsstring) :=
  parse_chars (List.length s) s [].

(** JSONValue, by recursive descent.  [parse_value] expects its input at the
    first code unit of the value; [parse_elements] and [parse_members] read
    the rest of an array or object whose first entry starts the input. *)
Fixpoint parse_value (fuel : nat) (s : jsstring) : option (value * jsstring) :=
  match fuel with
  | O => None
  | S fuel' =>
      match s with
      | [] => None
      | c :: r =>
          if (c =? ch "n")%N then
            option_map (fun r' => (JNull, r')) (strip_prefix (lit "null") s)
          else if (c =? ch "t")%N then
            option_map (fun r' => (JBool true, r')) (strip_prefix (lit "true") s)
          else if (c =? ch "f")%N then
            option_map (fun r' => (JBool false, r')) (strip_prefix (lit "false") s)
          else if (c =? dquote)%N then
            option_map (fun '(str, r') => (JString str, r')) (parse_string r)
          else if (c =? ch "[")%N then
            match skip_ws r with
            | c' :: r' =>
                if (c' =? ch "]")%N then Some (JArray [], r')
                else parse_elements fuel' (c' :: r') []
            | [] => None
            end
          else if (c =? ch "{")%N then
            match skip_ws r with
            | c' :: r' =>
                if (c' =? ch "}")%N then Some (JObject [], r')
                else parse_members fuel' (c' :: r') []
            | [] => None
            end
          else parse_number s
      end
  end
with parse_elements (fuel : nat) (s : jsstring) (acc : list value)
  : option (value * jsstring) :=
  match fuel with
  | O => None
  | S fuel' =>
      match parse_value fuel' s with
      | None => None
      | Some (v, r) =>
          match skip_ws r with
          | c :: r' =>
              if (c =? ch ",")%N then parse_elements fuel' (skip_ws r') (acc ++ [v])
              else if (c =? ch "]")%N then Some (JArray (acc ++ [v]), r')
              else None
          | [] => None
          end
      end
  end
with parse_members (fuel : nat) (s : jsstring) (acc : list (jsstring * value))
  : option (value * jsstring) :=
  match fuel with
  | O => None
  | S fuel' =>
      match s with
      | q :: r0 =>
          if (q =? dquote)%N then
            match parse_string r0 with
            | None => None
            | Some (k, r1) =>
                match skip_ws r1 with
                | c :: r2 =>
                    if (c =? ch ":")%N then
                      match parse_value fuel' (skip_ws r2) with
                      | None => None
                      | Some (v, r3) =>
                          match skip_ws r3 with
                          | c' :: r4 =>
                              if (c' =? ch ",")%N then
                                parse_members fuel' (skip_ws r4) (obj_set k v acc)
                              else if (c' =? ch "}")%N then
                                Some (JObject (obj_set k v acc), r4)
                              else None
                          | [] => None
                          end
                      end
                    else None
                | [] => None
                end
            end
          else None
      | [] => None
      end
  end.

(** What the fuel lemmas say of a parser run with fuel [f]: a run that
    succeeds leaves less input than it was given, and succeeds with the same
    result on any fuel that is at least twice what it consumed (and one more
    for the two list parsers). *)
Section FuelBounds.
Local Open Scope nat_scope.

Definition value_ok (f : nat) : Prop :=
  forall s v r,
    parse_value f s = Some (v, r) ->
    List.length r < List.length s
    /\ forall f', 2 * (List.length s - List.length r) <= f' -> parse_value f' s = Some (v, r).

Definition elements_ok (f : nat) : Prop :=
  forall s acc v r,
    parse_elements f s acc = Some (v, r) ->
    List.length r < List.length s
    /\ forall f', 2 * (List.length s - List.length r) + 1 <= f' ->
                  parse_elements f' s acc = Some (v, r).

Definition members_ok (f : nat) : Prop :=
  forall s acc v r,
    parse_members f s acc = Some (v, r) ->
    List.length r < List.length s
    /\ forall f', 2 * (List.length s - List.length r) + 1 <= f' ->
                  parse_members f' s acc = Some (v, r).

End FuelBounds.

(** [JSON.parse text]: the value of a well-formed JSON text, [None] where
    JavaScript throws a SyntaxError.  Every call of the three parsers that
    spends fuel without input having been consumed since the previous one is
    followed by one that consumes, so twice the length of the text (and two
    more) is enough fuel: [parse_fuel_adequate] below. *)
Definition parse (text : jsstring) : option value :=
  match parse_value (2 * List.length text + 2) (skip_ws text) with
  | Some (v, r) => if isEmptyString (skip_ws r) then Some v else None
  | None => None
  end.

End JSON.
Import JSON.

(* ================================================================== *)
(** ** Property access and truthiness *)
(* ================================================================== *)

(** [v.k] for a value [v] that came out of [JSON.parse] and a property name
    [k] that no built-in prototype defines (the program reads one property,
    [isClarificationNeeded]).  Reading a property of [null] throws a
    TypeError; an object yields its own property or [undefined] ([None]);
    booleans, numbers, strings and arrays yield [undefined]. *)
Definition GetProp (v : JSON.value) (k : jsstring) : Completion (option JSON.value) :=
  match v with
  | JNull =>
      Rejected (mkError (lit "TypeError")
                  (lit "Cannot read properties of null"))   (* never inspected *)
  | JObject ps => Fulfilled (obj_get k ps)
  | _ => Fulfilled None
  end.

(** Whether the decimal [mantissa * 10^exponent] rounds to the double zero:
    it does when it is at most 2^-1075, half the least positive double. *)
Definition rounds_to_zero (mantissa : N) (exponent : Z) : bool :=
  if (mantissa =? 0)%N then true
  else if 0 <=? exponent then false
  else Z.of_N mantissa * 2 ^ 1075 <=? 10 ^ (- exponent).

(** [ToBoolean], on a value or [undefined]. *)
Definition ToBoolean (v : option JSON.value) : bool :=
  match v with
  | None => false
  | Some JNull => false
  | Some (JBool b) => b
  | Some (JNumber _ m e) => negb (rounds_to_zero m e)
  | Some (JString s) => negb (isEmptyString s)
  | Some (JArray _) => true
  | Some (JObject _) => true
  end.

(** [a || b] on an optional string: [b] when [a] is absent or empty. *)
Definition or_else (a : option jsstring) (b : jsstring) : jsstring :=
  match a with
  | Some (c :: r) => c :: r
  | _ => b
  end.

(* ================================================================== *)
(** ** types.ts *)
(* ================================================================== *)

Inductive ModelTarget := GEMINI | GPT4 | CLAUDE | GENERAL.

(** The string value of each member of the enum. *)
Definition ModelTarget_value (t : ModelTarget) : jsstring :=
  match t with
  | GEMINI => lit "GEMINI"
  | GPT4 => lit "GPT4"
  | CLAUDE => lit "CLAUDE"
  | GENERAL => lit "GENERAL"
  end.

Definition isString (v : option JSON.value) : bool :=
  match v with Some (JString _) => true | _ => false end.

Definition isBoolean (v : option JSON.value) : bool :=
  match v with Some (JBool _) => true | _ => false end.

Definition isStringArray (v : JSON.value) : bool :=
  match v with
  | JArray xs => forallb (fun x => isString (Some x)) xs
  | _ => false
  end.

(** The shape of [interface PromptResult]: an object with string
    [optimizedPrompt], [logic] and [modelTip], boolean
    [isClarificationNeeded] and, when present, an array of strings
    [clarifyingQuestions]. *)
Definition isPromptResult (v : JSON.value) : bool :=
  match v with
  | JObject ps =>
      isString (obj_get (lit "optimizedPrompt") ps)
      && isString (obj_get (lit "logic") ps)
      && isString (obj_get (lit "modelTip") ps)
      && match obj_get (lit "clarifyingQuestions") ps with
         | None => true
         | Some q => isStringArray q
         end
      && isBoolean (obj_get (lit "isClarificationNeeded") ps)
  | _ => false
  end.

(** Whether a payload, the text of a response, parses as a [PromptResult]. *)
Definition payload_is_PromptResult (payload : option jsstring) : bool :=
  match payload with
  | Some t =>
      match JSON.parse t with
      | Some v => isPromptResult v
      | None => false
      end
  | None => false
  end.

(** [r.isClarificationNeeded] for a result [r] other than [null]. *)
Definition isClarificationNeeded (r : JSON.value) : option JSON.value :=
  match r with
  | JObject ps => obj_get (lit "isClarificationNeeded") ps
  | _ => None
  end.

Module Message.

Inductive Role := user | assistant.

Record t := mk {
  id : jsstring;
  role : Role;
  content : jsstring;
  result : option JSON.value;
  timestamp : Z
}.

End Message.

(* ================================================================== *)
(** ** services/geminiService.ts *)
(* ================================================================== *)

(** The request and response of [ai.models.generateContent]. *)
Module Api.

Inductive Role := user | model.

Record Part := mkPart { text : jsstring }.

Record Content := mkContent { role : Role; parts : list Part }.

Inductive Schema :=
| BOOLEAN
| STRING (description : option jsstring)
| ARRAY (items : Schema) (description : option jsstring)
| OBJECT (properties : list (jsstring * Schema)) (required : list jsstring).

Record Config := mkConfig {
  systemInstruction : jsstring;
  responseMimeType : jsstring;
  responseSchema : Schema
}.

Record Request := mkRequest {
  apiKey : jsstring;
  modelName : jsstring;   (* the [model] field *)
  contents : list Content;
  config : Config
}.

(** Of the response the client reads its [text], which may be absent. *)
Record Response := mkResponse { response_text : option jsstring }.

End Api.

Definition newline : jsstring := [10%N].

Definition SYSTEM_INSTRUCTION : jsstring :=
  newline ++
  lit "You are a World-Class Prompt Engineer and AI Architect. Your goal is to help users formulate the most effective, high-performing prompts for any LLM (Gemini, GPT-4, Claude, Llama). " ++ newline ++
  newline ++
  qlit "You follow the `PTCF` framework: Persona, Task, Context, and Format." ++ newline ++
  newline ++
  lit "Your Process:" ++ newline ++
  lit "1. Ask Clarifying Questions: If the user's request is vague or lacks sufficient detail to create a world-class prompt, set isClarificationNeeded to true and provide 2-3 targeted questions." ++ newline ++
  qlit "2. Draft the Prompt: Provide a structured, `state-of-the-art` prompt." ++ newline ++
  qlit "3. Explain the Logic: Briefly explain why you chose certain structures (e.g., `I used XML tags here because Claude performs better with them`)." ++ newline ++
  newline ++
  lit "Architecture Standards:" ++ newline ++
  lit "- For Claude: Use XML tags (e.g., <context>, <task>) and include a <thinking> scratchpad section." ++ newline ++
  lit "- For GPT-4/Gemini: Use Markdown headers (##), bolding for emphasis, and clear step-by-step instructions." ++ newline ++
  qlit "- General: Use `Few-Shot` examples (placeholders where the user can add examples) and `Chain of Thought` triggers (e.g., `Think step-by-step`)." ++ newline ++
  newline ++
  lit "Output Schema:" ++ newline ++
  lit "You MUST respond in JSON format matching the defined schema." ++ newline.

Definition responseSchema : Api.Schema :=
  Api.OBJECT
    [ (lit "isClarificationNeeded", Api.BOOLEAN);
      (lit "clarifyingQuestions",
        Api.ARRAY (Api.STRING None)
          (Some (lit "2-3 questions if clarification is needed")));
      (lit "optimizedPrompt",
        Api.STRING (Some (lit "The actual generated prompt if clarification is NOT needed")));
      (lit "logic",
        Api.STRING (Some (lit "Explanation of prompt engineering techniques used")));
      (lit "modelTip",
        Api.STRING (Some (lit "One specific tip for the target model"))) ]
    [ lit "isClarificationNeeded"; lit "logic"; lit "modelTip" ].

(** The text of the new turn: the template literal of [generatePrompt]. *)
Definition turn_text (targetModel : ModelTarget) (userInput : jsstring) : jsstring :=
  lit "Target Model: " ++ ModelTarget_value targetModel ++ newline
  ++ lit "User Request: " ++ userInput.

(** [generatePrompt] up to its [await]: the request it hands to
    [ai.models.generateContent].  [API_KEY] is [process.env.API_KEY]. *)
Definition generatePrompt_request (API_KEY : option jsstring)
    (userInput : jsstring) (targetModel : ModelTarget)
    (history : list Api.Content) : Api.Request :=
  {| Api.apiKey := or_else API_KEY [];
     Api.modelName := lit "gemini-3-pro-preview";
     Api.contents :=
       history ++
       [ {| Api.role := Api.user;
            Api.parts := [ {| Api.text := turn_text targetModel userInput |} ] |} ];
     Api.config :=
       {| Api.systemInstruction := SYSTEM_INSTRUCTION;
          Api.responseMimeType := lit "application/json";
          Api.responseSchema := responseSchema |} |}.

Definition invalid_response : Error :=
  mkError (lit "Error") (lit "Invalid response from AI").

(** [generatePrompt] from its [await] on.  A rejection of the remote call is
    thrown by the [await], outside the [try]; inside the [try], a
    SyntaxError of [JSON.parse] is replaced by the generic error. *)
Definition generatePrompt_resume (settled : Completion Api.Response)
  : Completion JSON.value :=
  match settled with
  | Rejected e => Rejected e
  | Fulfilled response =>
      match JSON.parse (or_else (Api.response_text response) (lit "{}")) with
      | Some data => Fulfilled data
      | None => Rejected invalid_response
      end
  end.

(** The whole call, over a remote boundary [remote] that settles every
    request it is given. *)
Definition generatePrompt (remote : Api.Request -> Completion Api.Response)
    (API_KEY : option jsstring) (userInput : jsstring)
    (targetModel : ModelTarget) (history : list Api.Content)
  : Completion JSON.value :=
  generatePrompt_resume
    (remote (generatePrompt_request API_KEY userInput targetModel history)).

(* ================================================================== *)
(** ** App: the conversation controller *)
(* ================================================================== *)

(** The state cells of the component ([useState]). *)
Record AppState := mkApp {
  messages : list Message.t;
  inputValue : jsstring;
  targetModel : ModelTarget;
  isLoading : bool;
  copiedId : option jsstring;
  showHistory : bool
}.

Definition initialState : AppState :=
  {| messages := []; inputValue := []; targetModel := GENERAL;
     isLoading := false; copiedId := None; showHistory := false |}.

(** The state setters.  [setMessages] is always called with an updater
    function of the previous list. *)
Definition setMessages (f : list Message.t -> list Message.t) (s : AppState) :=
  {| messages := f (messages s); inputValue := inputValue s;
     targetModel := targetModel s; isLoading := isLoading s;
     copiedId := copiedId s; showHistory := showHistory s |}.

Definition setInputValue (v : jsstring) (s : AppState) :=
  {| messages := messages s; inputValue := v;
     targetModel := targetModel s; isLoading := isLoading s;
     copiedId := copiedId s; showHistory := showHistory s |}.

Definition setTargetModel (t : ModelTarget) (s : AppState) :=
  {| messages := messages s; inputValue := inputValue s;
     targetModel := t; isLoading := isLoading s;
     copiedId := copiedId s; showHistory := showHistory s |}.

Definition setIsLoading (b : bool) (s : AppState) :=
  {| messages := messages s; inputValue := inputValue s;
     targetModel := targetModel s; isLoading := b;
     copiedId := copiedId s; showHistory := showHistory s |}.

Definition setCopiedId (c : option jsstring) (s : AppState) :=
  {| messages := messages s; inputValue := inputValue s;
     targetModel := targetModel s; isLoading := isLoading s;
     copiedId := c; showHistory := showHistory s |}.

Definition setShowHistory (b : bool) (s : AppState) :=
  {| messages := messages s; inputValue := inputValue s;
     targetModel := targetModel s; isLoading := isLoading s;
     copiedId := copiedId s; showHistory := b |}.

(** The wall clock as one run of a handler sees it: [now k] is what the
    call number [k] of [Date.now()] returns, in milliseconds. *)
Definition Clock := nat -> Z.

(** The clock after [k] readings have been taken. *)
Definition later (k : nat) (now : Clock) : Clock := fun i => now (i + k)%nat.

(** The arguments of a call of [generatePrompt]. *)
Record GenerateCall := mkCall {
  userInput : jsstring;
  target : ModelTarget;
  history : list Api.Content
}.

(** [messages.map(msg => ({ role: ..., parts: [{ text: msg.content }] }))]. *)
Definition historyForApi (msgs : list Message.t) : list Api.Content :=
  map (fun msg =>
         {| Api.role := match Message.role msg with
                        | Message.user => Api.user
                        | Message.assistant => Api.model
                        end;
            Api.parts := [ {| Api.text := Message.content msg |} ] |})
      msgs.

Definition clarification_text : jsstring :=
  lit "I need a bit more information to build the perfect prompt for you:".

Definition architected_text : jsstring :=
  lit "I've architected a world-class prompt based on your requirements.".

Definition error_text : jsstring :=
  lit "I encountered an error while constructing your prompt. Please check your API configuration or try again.".

(** The [userMessage] of [handleSend]. *)
Definition userMessage (now : Clock) (s : AppState) : Message.t :=
  {| Message.id := Number_toString (now 0%nat);
     Message.role := Message.user;
     Message.content := inputValue s;
     Message.result := None;
     Message.timestamp := now 1%nat |}.

(** [handleSend] up to its [await]: the new state and the call of
    [generatePrompt] it makes, if any.  [s] is the state of the render the
    handler closes over. *)
Definition handleSend (now : Clock) (s : AppState) : AppState * option GenerateCall :=
  if isEmptyString (trim (inputValue s)) || isLoading s then (s, None)
  else
    let s1 := setMessages (fun prev => prev ++ [userMessage now s]) s in
    let s2 := setInputValue [] s1 in
    let s3 := setIsLoading true s2 in
    (s3, Some {| userInput := inputValue s;
                 target := targetModel s;
                 history := historyForApi (messages s) |}).

(** The [try] block after the [await]: the assistant message it builds, or
    what it throws, and the number of clock readings it has taken.  The [id]
    is computed before [result.isClarificationNeeded] is read. *)
Definition try_block (now : Clock) (outcome : Completion JSON.value)
  : Completion Message.t * nat :=
  match outcome with
  | Rejected e => (Rejected e, 0%nat)
  | Fulfilled result =>
      let id := Number_toString (now 0%nat + 1) in
      match GetProp result (lit "isClarificationNeeded") with
      | Rejected e => (Rejected e, 1%nat)
      | Fulfilled flag =>
          (Fulfilled
             {| Message.id := id;
                Message.role := Message.assistant;
                Message.content :=
                  if ToBoolean flag then clarification_text else architected_text;
                Message.result := Some result;
                Message.timestamp := now 1%nat |},
           2%nat)
      end
  end.

(** The message of the [catch] block. *)
Definition errorMessage (now : Clock) : Message.t :=
  {| Message.id := Number_toString (now 0%nat + 1);
     Message.role := Message.assistant;
     Message.content := error_text;
     Message.result := None;
     Message.timestamp := now 1%nat |}.

(** [handleSend] from its [await] on, [outcome] being how the call of
    [generatePrompt] settled and [s] the state at that moment. *)
Definition handleSend_resume (now : Clock) (outcome : Completion JSON.value)
    (s : AppState) : AppState :=
  let s1 :=
    match try_block now outcome with
    | (Fulfilled assistantMessage, _) =>
        setMessages (fun prev => prev ++ [assistantMessage]) s
    | (Rejected _, k) =>
        setMessages (fun prev => prev ++ [errorMessage (later k now)]) s
    end in
  setIsLoading false s1.

(** [clearHistory], [confirmed] being the answer to the [confirm] dialog. *)
Definition clearHistory (confirmed : bool) (s : AppState) : AppState :=
  if confirmed then setMessages (fun _ => []) s else s.

(* ------------------------------------------------------------------ *)
(** *** The component in its environment *)

(** The component together with what it has set going outside itself: the
    remote calls in flight, the pending timers (each runs
    [setCopiedId(null)] when due), the texts written to the clipboard, and
    the time of the event loop in milliseconds. *)
Record World := mkWorld {
  app : AppState;
  API_KEY : option jsstring;
  inflight : list Api.Request;
  timers : list Z;
  clipboard : list jsstring;
  time : Z
}.

Definition boot (key : option jsstring) : World :=
  {| app := initialState; API_KEY := key; inflight := [];
     timers := []; clipboard := []; time := 0 |}.

Definition with_app (s : AppState) (w : World) : World :=
  {| app := s; API_KEY := API_KEY w; inflight := inflight w;
     timers := timers w; clipboard := clipboard w; time := time w |}.

Definition COPIED_DELAY : Z := 2000.

(** [handleCopy]: no timer is ever cancelled. *)
Definition handleCopy (text id : jsstring) (w : World) : World :=
  {| app := setCopiedId (Some id) (app w);
     API_KEY := API_KEY w;
     inflight := inflight w;
     timers := timers w ++ [time w + COPIED_DELAY];
     clipboard := clipboard w ++ [text];
     time := time w |}.

(** [ms] milliseconds pass: the timers that fall due run, each setting the
    indicator to [null]. *)
Definition elapse (ms : N) (w : World) : World :=
  let t := time w + Z.of_N ms in
  let due := filter (fun d => d <=? t) (timers w) in
  {| app := fold_left (fun s _ => setCopiedId None s) due (app w);
     API_KEY := API_KEY w;
     inflight := inflight w;
     timers := filter (fun d => negb (d <=? t)) (timers w);
     clipboard := clipboard w;
     time := t |}.

(** A submit in the world: the call of [generatePrompt], if one is made,
    puts its request in flight. *)
Definition submit (now : Clock) (w : World) : World :=
  match handleSend now (app w) with
  | (s, None) => with_app s w
  | (s, Some c) =>
      {| app := s;
         API_KEY := API_KEY w;
         inflight := inflight w ++
           [generatePrompt_request (API_KEY w) (userInput c) (target c) (history c)];
         timers := timers w;
         clipboard := clipboard w;
         time := time w |}
  end.

(** The oldest remote call in flight settles with [response]. *)
Definition settle (response : Completion Api.Response) (now : Clock) (w : World)
  : World :=
  match inflight w with
  | [] => w
  | _ :: rest =>
      {| app := handleSend_resume now (generatePrompt_resume response) (app w);
         API_KEY := API_KEY w;
         inflight := rest;
         timers := timers w;
         clipboard := clipboard w;
         time := time w |}
  end.

(** What can happen to the component. *)
Inductive Event :=
| Type_ (text : jsstring)                   (* the textarea changes *)
| SelectTarget (t : ModelTarget)            (* the engine selector changes *)
| ShowHistory (b : bool)                    (* the drawer opens or closes *)
| Submit (now : Clock)                      (* Enter, or the form is submitted *)
| Settle (response : Completion Api.Response) (now : Clock)
| ClearHistory (confirmed : bool)
| Copy (text id : jsstring)
| Elapse (ms : N).

Definition step (w : World) (e : Event) : World :=
  match e with
  | Type_ text => with_app (setInputValue text (app w)) w
  | SelectTarget t => with_app (setTargetModel t (app w)) w
  | ShowHistory b => with_app (setShowHistory b (app w)) w
  | Submit now => submit now w
  | Settle response now => settle response now w
  | ClearHistory confirmed => with_app (clearHistory confirmed (app w)) w
  | Copy text id => handleCopy text id w
  | Elapse ms => elapse ms w
  end.

Definition run (w : World) (es : list Event) : World := fold_left step es w.

(** The states of a session. *)
Definition reachable (w : World) : Prop :=
  exists key es, w = run (boot key) es.

(** Where a message of the list came from: typed by the user, or built when
    a call of [generatePrompt] settled with the given outcome. *)
Inductive Origin :=
| Typed
| Generated (outcome : Completion JSON.value).

(** The origins of the messages of the list, kept beside the run: [os] lists
    them before the event [e] is handled in the world [w]. *)
Definition step_origins (w : World) (e : Event) (os : list Origin) : list Origin :=
  match e with
  | Submit now =>
      match snd (handleSend now (app w)) with
      | Some _ => os ++ [Typed]
      | None => os
      end
  | Settle response _ =>
      match inflight w with
      | [] => os
      | _ :: _ => os ++ [Generated (generatePrompt_resume response)]
      end
  | ClearHistory true => []
  | _ => os
  end.

(** What the origin [o] of a message [m] says about its [result]. *)
Definition attached_result_spec (m : Message.t) (o : Origin) : Prop :=
  (Message.result m <> None <->
     Message.role m = Message.assistant
     /\ exists r, o = Generated (Fulfilled r) /\ r <> JNull)
  /\ (forall r, Message.result m = Some r -> o = Generated (Fulfilled r))
  /\ (Message.role m = Message.user <-> o = Typed)
  /\ (forall e, o = Generated (Rejected e) -> Message.result m = None).

Definition is_Settle (e : Event) : bool :=
  match e with Settle _ _ => true | _ => false end.

Fixpoint run_origins (w : World) (os : list Origin) (es : list Event)
  : World * list Origin :=
  match es with
  | [] => (w, os)
  | e :: es' => run_origins (step w e) (step_origins w e os) es'
  end.

(* ------------------------------------------------------------------ *)
(** *** What the component renders *)

(** The [disabled] attribute of the send button,
    [!inputValue.trim() || isLoading]. *)
Definition sendDisabled (s : AppState) : bool :=
  isEmptyString (trim (inputValue s)) || isLoading s.

(** [xs.slice(-n)]: the last [n] elements, all of them when there are fewer. *)
Definition slice_last {A : Type} (n : nat) (xs : list A) : list A :=
  skipn (List.length xs - n) xs.

Definition isUser (m : Message.t) : bool :=
  match Message.role m with
  | Message.user => true
  | Message.assistant => false
  end.

(** The entries of the sidebar,
    [messages.filter(m => m.role === 'user').slice(-10).reverse()]. *)
Definition recentSessions (msgs : list Message.t) : list Message.t :=
  rev (slice_last 10 (filter isUser msgs)).

(** [r.k] where it does not throw: [r] is an attached result, read only
    once it has been found truthy, and [k] is no property of a built-in
    prototype. *)
Definition prop (r : JSON.value) (k : jsstring) : option JSON.value :=
  match r with
  | JObject ps => obj_get k ps
  | _ => None
  end.

(** Whether the render of a message takes the branch of the clarifying
    questions,
    [message.result && (message.result.isClarificationNeeded
                        && message.result.clarifyingQuestions && ...)]. *)
Definition questionsBranch (m : Message.t) : bool :=
  match Message.result m with
  | None => false
  | Some r =>
      ToBoolean (Some r)
      && (ToBoolean (prop r (lit "isClarificationNeeded"))
          && ToBoolean (prop r (lit "clarifyingQuestions")))
  end.

(** Whether it takes the branch of the optimized prompt, the one with the
    copy button,
    [message.result && (!message.result.isClarificationNeeded
                        && message.result.optimizedPrompt && ...)]. *)
Definition promptBranch (m : Message.t) : bool :=
  match Message.result m with
  | None => false
  | Some r =>
      ToBoolean (Some r)
      && (negb (ToBoolean (prop r (lit "isClarificationNeeded")))
          && ToBoolean (prop r (lit "optimizedPrompt")))
  end.

(* ------------------------------------------------------------------ *)
(** *** Predicates on sessions *)

Definition is_Type (e : Event) : bool :=
  match e with Type_ _ => true | _ => false end.

Definition is_confirmed_clear (e : Event) : bool :=
  match e with ClearHistory true => true | _ => false end.

(** The roles of a conversation of [n] messages that takes turns, the user
    first. *)
Definition turns (n : nat) : list Message.Role :=
  map (fun i => if Nat.even i then Message.user else Message.assistant) (seq 0 n).

Definition api_turns (n : nat) : list Api.Role :=
  map (fun i => if Nat.even i then Api.user else Api.model) (seq 0 n).

(** What every message of a session looks like: a user message has no
    result; an assistant message without result has the error text; one with
    a result has a result other than [null] and the acknowledgment that goes
    with the flag of the result. *)
Definition well_formed (m : Message.t) : Prop :=
  match Message.role m, Message.result m with
  | Message.user, r => r = None
  | Message.assistant, None => Message.content m = error_text
  | Message.assistant, Some r =>
      r <> JNull
      /\ Message.content m =
           (if ToBoolean (isClarificationNeeded r)
            then clarification_text else architected_text)
  end.

(** The clock readings of the events [es] keep ahead of the ids given out:
    [bound] is at least every number an id has been printed from; a submit
    reads a clock beyond it, the settling of a call a clock not behind it. *)
Fixpoint clock_ahead (bound : Z) (es : list Event) : Prop :=
  match es with
  | [] => True
  | Submit now :: es' =>
      bound < now 0%nat /\ clock_ahead (now 0%nat) es'
  | Settle _ now :: es' =>
      bound <= now 0%nat /\ bound <= now 1%nat
      /\ clock_ahead (Z.max (now 0%nat) (now 1%nat) + 1) es'
  | _ :: es' => clock_ahead bound es'
  end.

(** The state of a session in which the list has not been cleared: the
    messages take turns, and a call is in flight exactly after a user
    message. *)
Definition taking_turns (w : World) : Prop :=
  let n := List.length (messages (app w)) in
  map Message.role (messages (app w)) = turns n
  /\ ((isLoading (app w) = true /\ (exists q, inflight w = [q]) /\ Nat.even n = false)
      \/ (isLoading (app w) = false /\ inflight w = [] /\ Nat.even n = true)).


(** The ids of the list are distinct and printed from numbers up to [b]. *)
Definition ids_below (b : Z) (w : World) : Prop :=
  NoDup (map Message.id (messages (app w)))
  /\ Forall (fun m => exists n, Message.id m = Number_toString n /\ n <= b)
            (messages (app w)).

(** The claim of C9 in the words of the specification: a result is attached
    exactly to the assistant messages whose call succeeded. *)
Definition claimed_result_spec (m : Message.t) (o : Origin) : Prop :=
  Message.result m <> None <->
  Message.role m = Message.assistant /\ exists r, o = Generated (Fulfilled r).

(* ------------------------------------------------------------------ *)
(** *** Sample sessions *)

(** The world once the user has typed [text] into a fresh page. *)
Definition typed (text : string) : World := step (boot None) (Type_ (lit text)).

(** A clock that stands at [t] for the whole run of a handler. *)
Definition at_ (t : Z) : Clock := fun _ => t.

(** A remote call that returns with the text [t]. *)
Definition replies (t : jsstring) : Completion Api.Response :=
  Fulfilled {| Api.response_text := Some t |}.

Definition prompt_reply : jsstring :=
  qlit "{`isClarificationNeeded`: false, `optimizedPrompt`: `Act as a LinkedIn ghostwriter.`, `logic`: `Persona first.`, `modelTip`: `Add examples.`}".

Definition questions_reply : jsstring :=
  qlit "{`isClarificationNeeded`: true, `clarifyingQuestions`: [`Who is the audience?`, `What tone?`], `logic`: `Too vague.`, `modelTip`: `Be specific.`}".

Definition network_down : Completion Api.Response :=
  Rejected (mkError (lit "TypeError") (lit "Failed to fetch")).

(* ================================================================== *)
(** * Properties *)
(* ================================================================== *)

Lemma isEmptyString_true (s : jsstring) : isEmptyString s = true <-> s = [].
Proof. destruct s; simpl; split; congruence. Qed.

Lemma isEmptyString_false (s : jsstring) : isEmptyString s = false <-> s <> [].
Proof. destruct s; simpl; split; congruence. Qed.

Lemma with_app_same (w : World) : with_app (app w) w = w.
Proof. destruct w; reflexivity. Qed.

Lemma or_else_nonempty (t d : jsstring) : t <> [] -> or_else (Some t) d = t.
Proof. destruct t; [congruence | reflexivity]. Qed.

(* ------------------------------------------------------------------ *)
(** ** [JSON.parse] on sample texts *)

Example parse_empty_object : JSON.parse (lit "{}") = Some (JObject []).
Proof. reflexivity. Qed.

Example parse_null : JSON.parse (lit "null") = Some JNull.
Proof. reflexivity. Qed.

Example parse_empty_text : JSON.parse [] = None.
Proof. reflexivity. Qed.

Example parse_garbage : JSON.parse (lit "Sorry, I cannot help.") = None.
Proof. reflexivity. Qed.

Example parse_trailing_comma : JSON.parse (lit "[1,]") = None.
Proof. reflexivity. Qed.

Example trim_blank :
  trim (lit "   ") = [] /\ trim [9; 10; 13; 32; 160; 8232; 12288; 65279]%N = []
  /\ trim (lit "  a b ") = lit "a b".
Proof. repeat split. Qed.

Example rounds_to_zero_samples :
  rounds_to_zero 5 (-324) = false      (* 5e-324, the least positive double *)
  /\ rounds_to_zero 25 (-325) = false  (* 2.5e-324 rounds up to it *)
  /\ rounds_to_zero 24 (-325) = true   (* 2.4e-324 rounds to 0 *)
  /\ rounds_to_zero 1 (-400) = true
  /\ rounds_to_zero 0 7 = true.
Proof. repeat split. Qed.

Example parse_numbers :
  JSON.parse (lit "-12.25E+2") = Some (JNumber true 1225 0)
  /\ JSON.parse (lit "1.5e-3") = Some (JNumber false 15 (-4))
  /\ JSON.parse (lit "01") = None
  /\ JSON.parse (lit "1.") = None
  /\ JSON.parse (lit ".5") = None.
Proof. repeat split. Qed.

Example parse_nested :
  JSON.parse (qlit " { `a` : [1, -2.50e1], `b`:{`a`:null}, `a`: true } ")
  = Some (JObject [(lit "a", JBool true); (lit "b", JObject [(lit "a", JNull)])]).
Proof. reflexivity. Qed.

(* ------------------------------------------------------------------ *)
(** ** [JSON.parse]: the fuel is enough *)

Section Fuel.
Local Open Scope nat_scope.

Lemma skip_ws_length (s : jsstring) : List.length (skip_ws s) <= List.length s.
Proof.
  induction s as [| c s IH]; simpl; [lia |].
  destruct (isJSONWhiteSpace c); simpl; lia.
Qed.

Lemma strip_prefix_length (p s r : jsstring) :
  strip_prefix p s = Some r -> List.length s = List.length p + List.length r.
Proof.
  revert s; induction p as [| x p IH]; intros [| y s] H; simpl in *;
    try discriminate; try (injection H as <-; reflexivity).
  destruct (N.eqb x y); [| discriminate]. rewrite (IH s H). reflexivity.
Qed.

Lemma digits_length (s : jsstring) (acc : N) (n : nat) (a : N) (k : nat) (r : jsstring) :
  digits s acc n = (a, k, r) -> List.length r + k = List.length s + n /\ n <= k.
Proof.
  revert acc n; induction s as [| c s IH]; intros acc n H; simpl in *.
  - injection H as <- <- <-. simpl. lia.
  - destruct (isDigit c).
    + apply IH in H. lia.
    + injection H as <- <- <-. simpl. lia.
Qed.

Lemma number_sign_length (s : jsstring) : List.length (snd (number_sign s)) <= List.length s.
Proof.
  destruct s as [| c s]; simpl; [lia |].
  destruct (c =? _)%N; simpl; lia.
Qed.

Lemma number_int_length (s r : jsstring) (n : N) :
  number_int s = Some (n, r) -> List.length r < List.length s.
Proof.
  destruct s as [| c s]; simpl; [discriminate |].
  destruct (c =? _)%N.
  - intros H; injection H as <- <-. lia.
  - destruct (isDigit c) eqn:Hc; [| discriminate].
    destruct (digits s _ 1) as [[a k] r'] eqn:Hd.
    intros H; injection H as <- <-.
    apply digits_length in Hd. lia.
Qed.

Lemma number_frac_length (n : N) (s r : jsstring) (m : N) (e : Z) :
  number_frac n s = Some (m, e, r) -> List.length r <= List.length s.
Proof.
  destruct s as [| c s]; simpl.
  - intros H; injection H as <- <- <-. simpl; lia.
  - destruct (c =? _)%N.
    + destruct (digits s n 0) as [[a k] r'] eqn:Hd.
      apply digits_length in Hd.
      destruct k; [discriminate |]. intros H; injection H as <- <- <-. lia.
    + intros H; injection H as <- <- <-. simpl; lia.
Qed.

Lemma number_exp_length (s r : jsstring) (x : Z) :
  number_exp s = Some (x, r) -> List.length r <= List.length s.
Proof.
  destruct s as [| c s]; simpl.
  - intros H; injection H as <- <-. simpl; lia.
  - destruct (_ || _)%bool.
    + destruct (match s with [] => _ | _ => _ end) as [eneg r1] eqn:Hs.
      assert (List.length r1 <= List.length s).
      { destruct s as [| d s']; [injection Hs as <- <-; simpl; lia |].
        destruct (d =? _)%N; [injection Hs as <- <-; simpl; lia |].
        destruct (d =? _)%N; injection Hs as <- <-; simpl; lia. }
      destruct (digits r1 0 0) as [[a k] r'] eqn:Hd.
      apply digits_length in Hd.
      destruct k; [discriminate |]. intros H'; injection H' as <- <-. lia.
    + intros H; injection H as <- <-. simpl; lia.
Qed.

Lemma parse_number_length (s : jsstring) (v : value) (r : jsstring) :
  parse_number s = Some (v, r) -> List.length r < List.length s.
Proof.
  unfold parse_number. pose proof (number_sign_length s) as Hs.
  destruct (number_sign s) as [neg s1]. simpl in Hs.
  destruct (number_int s1) as [[n s2] |] eqn:Hi; [| discriminate].
  destruct (number_frac n s2) as [[[m e] s3] |] eqn:Hf; [| discriminate].
  destruct (number_exp s3) as [[x s4] |] eqn:He; [| discriminate].
  intros H; injection H as <- <-.
  apply number_int_length in Hi. apply number_frac_length in Hf.
  apply number_exp_length in He. lia.
Qed.

Ltac crunch :=
  repeat match goal with
         | |- context [if ?b then _ else _] => destruct b
         | |- context [match ?l with [] => _ | _ :: _ => _ end] => destruct l
         | |- context [match hexDigit ?h with _ => _ end] => destruct (hexDigit h)
         end.

(** A successful run of [parse_chars] consumes input, and succeeds the same
    with any fuel that covers what it consumes. *)
Lemma parse_chars_fuel (f : nat) :
  forall s acc x r,
    parse_chars f s acc = Some (x, r) ->
    List.length r < List.length s
    /\ forall f', List.length s - List.length r <= f' -> parse_chars f' s acc = Some (x, r).
Proof.
  induction f as [| f IH]; intros s acc x r H; [discriminate |].
  destruct s as [| c s]; [discriminate |].
  enough (G : List.length r < S (List.length s)
              /\ forall f', List.length s - List.length r <= f' ->
                           parse_chars (S f') (c :: s) acc = Some (x, r)).
  { destruct G as [G1 G2]. split; [exact G1 |].
    intros [| f'] Hf; cbn [List.length] in Hf; [lia | apply G2; lia]. }
  revert H. cbn [parse_chars]. crunch; intros H; try discriminate;
    try (injection H as <- <-; split; [cbn [List.length]; lia | reflexivity]);
    (apply IH in H; destruct H as [H1 H2]; split;
     [cbn [List.length] in *; lia | intros f' Hf; apply H2; cbn [List.length] in *; lia]).
Qed.

Lemma parse_string_length (s x r : jsstring) :
  parse_string s = Some (x, r) -> List.length r < List.length s.
Proof. intros H. apply (parse_chars_fuel _ _ _ _ _ H). Qed.

Lemma parse_string_adequate (f : nat) (s x r : jsstring) :
  parse_chars f s [] = Some (x, r) -> parse_string s = Some (x, r).
Proof.
  intros H. apply (parse_chars_fuel _ _ _ _ _ H). lia.
Qed.

Lemma value_ok_S (f : nat) : elements_ok f -> members_ok f -> value_ok (S f).
Proof.
  intros IHe IHm s v r H.
  destruct s as [| c s]; [discriminate |].
  enough (G : List.length r < S (List.length s)
              /\ forall f', 2 * (S (List.length s) - List.length r) <= S f' ->
                           parse_value (S f') (c :: s) = Some (v, r)).
  { destruct G as [G1 G2]. split; [exact G1 |].
    intros [| f'] Hf; cbn [List.length] in Hf; [lia | apply G2; lia]. }
  revert H. cbn [parse_value].
  destruct (c =? ch "n")%N.
  { destruct (strip_prefix _ _) as [r' |] eqn:E; [| discriminate].
    apply strip_prefix_length in E. simpl in E.
    intros H; injection H as <- <-. split; [lia | reflexivity]. }
  destruct (c =? ch "t")%N.
  { destruct (strip_prefix _ _) as [r' |] eqn:E; [| discriminate].
    apply strip_prefix_length in E. simpl in E.
    intros H; injection H as <- <-. split; [lia | reflexivity]. }
  destruct (c =? ch "f")%N.
  { destruct (strip_prefix _ _) as [r' |] eqn:E; [| discriminate].
    apply strip_prefix_length in E. simpl in E.
    intros H; injection H as <- <-. split; [lia | reflexivity]. }
  destruct (c =? dquote)%N.
  { destruct (parse_string s) as [[str r'] |] eqn:E; [| discriminate].
    apply parse_string_length in E.
    intros H; injection H as <- <-. split; [lia | reflexivity]. }
  destruct (c =? ch "[")%N.
  { pose proof (skip_ws_length s) as Hws.
    destruct (skip_ws s) as [| c' r']; [discriminate |].
    destruct (c' =? ch "]")%N.
    - intros H; injection H as <- <-.
      cbn [List.length] in Hws. split; [lia | reflexivity].
    - intros H. apply IHe in H. destruct H as [H1 H2].
      cbn [List.length] in *. split; [lia |].
      intros f' Hf. apply H2. lia. }
  destruct (c =? ch "{")%N.
  { pose proof (skip_ws_length s) as Hws.
    destruct (skip_ws s) as [| c' r']; [discriminate |].
    destruct (c' =? ch "}")%N.
    - intros H; injection H as <- <-.
      cbn [List.length] in Hws. split; [lia | reflexivity].
    - intros H. apply IHm in H. destruct H as [H1 H2].
      cbn [List.length] in *. split; [lia |].
      intros f' Hf. apply H2. lia. }
  intros H. pose proof (parse_number_length _ _ _ H) as Hn.
  cbn [List.length] in Hn. split; [lia |]. intros f' _. exact H.
Qed.

Lemma elements_ok_S (f : nat) : value_ok f -> elements_ok f -> elements_ok (S f).
Proof.
  intros IHv IHe s acc v r H.
  enough (G : List.length r < List.length s
              /\ forall f', 2 * (List.length s - List.length r) <= f' ->
                           parse_elements (S f') s acc = Some (v, r)).
  { destruct G as [G1 G2]. split; [exact G1 |].
    intros [| f'] Hf; [lia | apply G2; lia]. }
  revert H. cbn [parse_elements].
  destruct (parse_value f s) as [[v1 r1] |] eqn:Ev; [| discriminate].
  apply IHv in Ev. destruct Ev as [Hv1 Hv2].
  pose proof (skip_ws_length r1) as Hws.
  destruct (skip_ws r1) as [| c r'] eqn:Es; [discriminate |].
  cbn [List.length] in Hws.
  destruct (c =? ch ",")%N eqn:Ec.
  - intros H. apply IHe in H. destruct H as [H1 H2].
    pose proof (skip_ws_length r') as Hws'.
    split; [lia |]. intros f' Hf.
    rewrite Hv2, Es, Ec by lia. apply H2. lia.
  - destruct (c =? ch "]")%N eqn:Ec'; [| discriminate].
    intros H; injection H as <- <-. split; [lia |].
    intros f' Hf. rewrite Hv2, Es, Ec, Ec' by lia. reflexivity.
Qed.

Lemma members_ok_S (f : nat) : value_ok f -> members_ok f -> members_ok (S f).
Proof.
  intros IHv IHm s acc v r H.
  enough (G : List.length r < List.length s
              /\ forall f', 2 * (List.length s - List.length r) <= f' ->
                           parse_members (S f') s acc = Some (v, r)).
  { destruct G as [G1 G2]. split; [exact G1 |].
    intros [| f'] Hf; [lia | apply G2; lia]. }
  revert H. cbn [parse_members].
  destruct s as [| q r0]; [discriminate |].
  destruct (q =? dquote)%N; [| discriminate].
  destruct (parse_string r0) as [[k r1] |] eqn:Ek; [| discriminate].
  apply parse_string_length in Ek.
  pose proof (skip_ws_length r1) as Hws1.
  destruct (skip_ws r1) as [| c r2]; [discriminate |].
  destruct (c =? ch ":")%N; [| discriminate].
  pose proof (skip_ws_length r2) as Hws2.
  destruct (parse_value f (skip_ws r2)) as [[v1 r3] |] eqn:Ev; [| discriminate].
  apply IHv in Ev. destruct Ev as [Hv1 Hv2].
  pose proof (skip_ws_length r3) as Hws3.
  destruct (skip_ws r3) as [| c' r4] eqn:Es; [discriminate |].
  cbn [List.length] in *.
  destruct (c' =? ch ",")%N eqn:Ec.
  - intros H. apply IHm in H. destruct H as [H1 H2].
    pose proof (skip_ws_length r4) as Hws4.
    split; [lia |]. intros f' Hf.
    rewrite Hv2, Es, Ec by lia. apply H2. lia.
  - destruct (c' =? ch "}")%N eqn:Ec'; [| discriminate].
    intros H; injection H as <- <-. split; [lia |].
    intros f' Hf. rewrite Hv2, Es, Ec, Ec' by lia. reflexivity.
Qed.

Lemma parsers_fuel (f : nat) : value_ok f /\ elements_ok f /\ members_ok f.
Proof.
  induction f as [| f (IHv & IHe & IHm)].
  - split; [| split]; hnf; intros; discriminate.
  - split; [| split].
    + apply value_ok_S; assumption.
    + apply elements_ok_S; assumption.
    + apply members_ok_S; assumption.
Qed.

(** Whatever fuel lets the parser read a value at the start of a text, the
    fuel [JSON.parse] spends on the text does too. *)
Theorem parse_fuel_adequate (text : jsstring) (f : nat) (v : value) (r : jsstring) :
  parse_value f (skip_ws text) = Some (v, r) ->
  parse_value (2 * List.length text + 2) (skip_ws text) = Some (v, r).
Proof.
  intros H. destruct (parsers_fuel f) as (Hv & _).
  pose proof (skip_ws_length text).
  apply (Hv _ _ _ H). lia.
Qed.

(** So [JSON.parse] answers [None] only for a text that no amount of fuel
    reads as one value followed by white space alone. *)
Corollary parse_None_for_every_fuel (text : jsstring) (f : nat) (v : value)
    (r : jsstring) :
  JSON.parse text = None ->
  parse_value f (skip_ws text) = Some (v, r) ->
  skip_ws r <> [].
Proof.
  intros Hp H. unfold JSON.parse in Hp.
  rewrite (parse_fuel_adequate text f v r H) in Hp.
  destruct (skip_ws r); [discriminate | discriminate].
Qed.

End Fuel.

(* ------------------------------------------------------------------ *)
(** ** The prompt generation client *)

Section Client.

Variable remote : Api.Request -> Completion Api.Response.
Variables (key : option jsstring) (text : jsstring) (label : ModelTarget).
Variable past : list Api.Content.

Let request := generatePrompt_request key text label past.
Let generate := generatePrompt remote key text label past.

(** C1, amended: an error of the remote call comes out of [generatePrompt]
    unchanged; when the remote call returns, [generatePrompt] fails exactly
    when the text of the response, or [{}] in the place of an absent or
    empty text, is not a JSON text, the failure is the generic error
    "Invalid response from AI", and a text that is JSON is answered by its
    value, whatever its shape. *)
Theorem generatePrompt_fails_iff_not_JSON :
  match remote request with
  | Rejected e => generate = Rejected e
  | Fulfilled response =>
      let payload := or_else (Api.response_text response) (lit "{}") in
      ((exists e, generate = Rejected e) <-> JSON.parse payload = None)
      /\ (forall e, generate = Rejected e -> e = invalid_response)
      /\ (forall v, JSON.parse payload = Some v -> generate = Fulfilled v)
  end.
Proof.
  subst generate request. unfold generatePrompt.
  destruct (remote _) as [response | e]; simpl; [| reflexivity].
  destruct (JSON.parse _) as [v |]; repeat split.
  - intros [e He]; discriminate.
  - discriminate.
  - intros e He; discriminate.
  - intros v' Hv; congruence.
  - intros _; eauto.
  - intros e He; congruence.
  - discriminate.
Qed.

(** C10: when the remote call returns with an absent or empty text,
    [generatePrompt] does not fail: it parses the literal [{}] in its place
    and returns the empty object, which has no property at all; and whenever
    the text of the response is a JSON text, its value is returned as it is,
    whatever its shape. *)
Theorem generatePrompt_returns_any_JSON (response : Api.Response) :
  remote request = Fulfilled response ->
  (Api.response_text response = None \/ Api.response_text response = Some [] ->
     or_else (Api.response_text response) (lit "{}") = lit "{}"
     /\ JSON.parse (lit "{}") = Some (JObject [])
     /\ generate = Fulfilled (JObject [])
     /\ forall k, GetProp (JObject []) k = Fulfilled None)
  /\ (forall t v,
        Api.response_text response = Some t ->
        JSON.parse t = Some v ->
        generate = Fulfilled v).
Proof.
  intros Hr. subst generate request. unfold generatePrompt. rewrite Hr.
  split.
  - intros Hempty. unfold generatePrompt_resume.
    destruct Hempty as [-> | ->]; repeat split.
  - intros t v Ht Hv. unfold generatePrompt_resume. rewrite Ht.
    rewrite or_else_nonempty.
    + rewrite Hv. reflexivity.
    + intros ->. discriminate.
Qed.

End Client.

(** C1 as stated fails: the payload [[]] is no [PromptResult], and the call
    returns it instead of failing. *)
Lemma generatePrompt_accepts_other_shapes :
  let response := Fulfilled {| Api.response_text := Some (lit "[]") |} in
  payload_is_PromptResult (Some (lit "[]")) = false
  /\ generatePrompt (fun _ => response) None (lit "hello") GENERAL []
     = Fulfilled (JArray [])
  /\ ~ (generatePrompt (fun _ => response) None (lit "hello") GENERAL []
          = Rejected invalid_response
        <-> payload_is_PromptResult (Some (lit "[]")) = false).
Proof.
  cbv zeta. split; [reflexivity |]. split; [reflexivity |].
  intros [_ H]. specialize (H eq_refl). discriminate.
Qed.

Lemma generatePrompt_returns_any_JSON_witness :
  let empty := fun _ : Api.Request => Fulfilled {| Api.response_text := None |} in
  let other := fun _ : Api.Request => replies (lit "[true]") in
  generatePrompt empty None (lit "hello") CLAUDE [] = Fulfilled (JObject [])
  /\ generatePrompt other None (lit "hello") CLAUDE []
     = Fulfilled (JArray [JBool true])
  /\ isPromptResult (JObject []) = false
  /\ isPromptResult (JArray [JBool true]) = false.
Proof.
  cbv zeta. split; [| split; [| split; reflexivity]].
  - refine (proj1 (proj2 (proj2
      (proj1 (generatePrompt_returns_any_JSON _ None (lit "hello") CLAUDE []
                {| Api.response_text := None |} eq_refl)
             (or_introl eq_refl))))).
  - refine (proj2 (generatePrompt_returns_any_JSON _ None (lit "hello") CLAUDE []
                     {| Api.response_text := Some (lit "[true]") |} eq_refl)
                  (lit "[true]") (JArray [JBool true]) eq_refl eq_refl).
Defined.

(* ------------------------------------------------------------------ *)
(** ** The conversation controller: one handler at a time *)

(** C8: [clearHistory] without confirmation changes nothing, in particular
    not the message list; with confirmation the message list is empty
    afterwards, whatever it held. *)
Theorem clearHistory_spec (s : AppState) :
  clearHistory false s = s
  /\ messages (clearHistory false s) = messages s
  /\ messages (clearHistory true s) = [].
Proof. repeat split. Qed.

Lemma submit_dropped (now : Clock) (w : World) :
  trim (inputValue (app w)) = [] \/ isLoading (app w) = true ->
  handleSend now (app w) = (app w, None) /\ submit now w = w.
Proof.
  intros H.
  assert (G : isEmptyString (trim (inputValue (app w))) || isLoading (app w) = true).
  { destruct H as [H | H]; rewrite H; [reflexivity | apply orb_true_r]. }
  assert (E : handleSend now (app w) = (app w, None)).
  { unfold handleSend. rewrite G. reflexivity. }
  split; [exact E |].
  unfold submit. rewrite E. apply with_app_same.
Qed.

(** C4: a submit with an input that is empty once trimmed, or while a
    request is in flight, is a no-op: the handler makes no call of
    [generatePrompt] and the world, message list included, stays as it is. *)
Theorem submit_noop (now : Clock) (w : World) :
  trim (inputValue (app w)) = [] \/ isLoading (app w) = true ->
  handleSend now (app w) = (app w, None)
  /\ submit now w = w
  /\ messages (app (submit now w)) = messages (app w)
  /\ inflight (submit now w) = inflight w.
Proof.
  intros H. destruct (submit_dropped now w H) as [E E'].
  rewrite E'. auto.
Qed.

Lemma submit_noop_witness :
  let w := step (boot None) (Type_ (lit "  ") ) in
  submit (fun _ => 5) w = w.
Proof.
  cbv zeta.
  refine (proj1 (proj2 (submit_noop (fun _ => 5) _ _))).
  left. reflexivity.
Defined.

Lemma handleSend_passes (now : Clock) (s : AppState) :
  trim (inputValue s) <> [] -> isLoading s = false ->
  handleSend now s =
    (setIsLoading true (setInputValue []
       (setMessages (fun prev => prev ++ [userMessage now s]) s)),
     Some {| userInput := inputValue s; target := targetModel s;
             history := historyForApi (messages s) |}).
Proof.
  intros Ht Hl. unfold handleSend.
  apply isEmptyString_false in Ht. rewrite Ht, Hl. reflexivity.
Qed.




(* ------------------------------------------------------------------ *)
(** ** The conversation controller: while a request is in flight *)

Lemma fold_clear_messages (due : list Z) (s : AppState) :
  messages (fold_left (fun s _ => setCopiedId None s) due s) = messages s.
Proof. revert s; induction due as [| d due IH]; intros s; simpl; [| rewrite IH]; reflexivity. Qed.

Lemma fold_clear_isLoading (due : list Z) (s : AppState) :
  isLoading (fold_left (fun s _ => setCopiedId None s) due s) = isLoading s.
Proof. revert s; induction due as [| d due IH]; intros s; simpl; [| rewrite IH]; reflexivity. Qed.

Lemma fold_clear_inputValue (due : list Z) (s : AppState) :
  inputValue (fold_left (fun s _ => setCopiedId None s) due s) = inputValue s.
Proof. revert s; induction due as [| d due IH]; intros s; simpl; [| rewrite IH]; reflexivity. Qed.


(** While the loading flag is up, no event but the settling of the call
    touches the flag or the calls in flight: a further submit is dropped. *)
Lemma loading_step (w : World) (e : Event) :
  isLoading (app w) = true -> is_Settle e = false ->
  isLoading (app (step w e)) = true /\ inflight (step w e) = inflight w.
Proof.
  intros Hl He. destruct e as [t | t | b | now | r now | c | t i | ms];
    simpl in *; try discriminate; auto.
  - destruct (submit_dropped now w (or_intror Hl)) as (_ & E).
    rewrite E. auto.
  - destruct c; simpl; auto.
  - rewrite fold_clear_isLoading. auto.
Qed.

Lemma loading_run (es : list Event) (w : World) :
  isLoading (app w) = true -> forallb (fun e => negb (is_Settle e)) es = true ->
  isLoading (app (run w es)) = true /\ inflight (run w es) = inflight w.
Proof.
  revert w; induction es as [| e es IH]; intros w Hl Hes; simpl in *; [auto |].
  apply andb_true_iff in Hes as [He Hes]. apply negb_true_iff in He.
  destruct (loading_step w e Hl He) as [Hl' Hi'].
  destruct (IH (step w e) Hl' Hes) as [H1 H2]. split; congruence.
Qed.

(** In a session the loading flag is up exactly while one call is in flight,
    and there is never more than one. *)
Lemma one_call_in_flight (w : World) :
  reachable w ->
  (isLoading (app w) = true /\ exists request, inflight w = [request])
  \/ (isLoading (app w) = false /\ inflight w = []).
Proof.
  intros (key & es & ->). unfold run.
  rewrite <- (rev_involutive es). generalize (rev es) as l. clear es.
  induction l as [| e l IH]; [right; split; reflexivity |].
  simpl. rewrite fold_left_app. simpl.
  set (w := fold_left step (rev l) (boot key)) in *.
  destruct e as [t | t | b | now | r now | c | t i | ms]; simpl; auto.
  - unfold submit. destruct IH as [[Hl [q Hq]] | [Hl Hq]].
    + destruct (submit_dropped now w (or_intror Hl)) as (E & _). rewrite E.
      rewrite with_app_same. left; eauto.
    + destruct (list_eq_dec N.eq_dec (trim (inputValue (app w))) []) as [Ht | Ht].
      * destruct (submit_dropped now w (or_introl Ht)) as (E & _). rewrite E.
        rewrite with_app_same. right; auto.
      * rewrite (handleSend_passes now (app w) Ht Hl). simpl. rewrite Hq.
        left; split; [reflexivity | eexists; reflexivity].
  - unfold settle. destruct IH as [[Hl [q Hq]] | [Hl Hq]]; rewrite Hq.
    + right; split; reflexivity.
    + right; auto.
  - destruct c; simpl; auto.
  - rewrite fold_clear_isLoading. auto.
Qed.

Lemma GetProp_not_null (r : JSON.value) :
  r <> JNull ->
  GetProp r (lit "isClarificationNeeded") = Fulfilled (isClarificationNeeded r).
Proof. destruct r; intros H; try reflexivity. congruence. Qed.

(** The assistant message of the success path. *)
Lemma handleSend_resume_success (now : Clock) (r : JSON.value) (s : AppState) :
  r <> JNull ->
  handleSend_resume now (Fulfilled r) s =
    setIsLoading false
      (setMessages (fun prev => prev ++
         [ {| Message.id := Number_toString (now 0%nat + 1);
              Message.role := Message.assistant;
              Message.content :=
                if ToBoolean (isClarificationNeeded r)
                then clarification_text else architected_text;
              Message.result := Some r;
              Message.timestamp := now 1%nat |} ]) s).
Proof.
  intros Hr. unfold handleSend_resume, try_block.
  rewrite (GetProp_not_null r Hr). reflexivity.
Qed.

Lemma handleSend_resume_isLoading (now : Clock) (o : Completion JSON.value)
    (s : AppState) :
  isLoading (handleSend_resume now o s) = false.
Proof. reflexivity. Qed.



Section Submit.

(** A submit that issues a request: nothing is in flight, the input is not
    blank.  Then any events but the settling of the call, then the call
    settles with [response]. *)
Variables (w : World) (now1 now2 : Clock) (es : list Event).
Variable response : Completion Api.Response.

Hypothesis idle : isLoading (app w) = false /\ inflight w = [].
Hypothesis non_blank : trim (inputValue (app w)) <> [].
Hypothesis unsettled : forallb (fun e => negb (is_Settle e)) es = true.

Let w1 := run (submit now1 w) es.
Let w2 := settle response now2 w1.

Lemma submit_in_flight :
  isLoading (app w1) = true
  /\ exists request, inflight w1 = [request]
       /\ Api.contents request =
            historyForApi (messages (app w))
            ++ [ {| Api.role := Api.user;
                    Api.parts := [ {| Api.text :=
                      turn_text (targetModel (app w)) (inputValue (app w)) |} ] |} ].
Proof.
  destruct idle as [Hl Hq].
  assert (Hs : isLoading (app (submit now1 w)) = true
               /\ inflight (submit now1 w) =
                  [generatePrompt_request (API_KEY w) (inputValue (app w))
                     (targetModel (app w)) (historyForApi (messages (app w)))]).
  { unfold submit. rewrite (handleSend_passes now1 (app w) non_blank Hl).
    simpl. rewrite Hq. split; reflexivity. }
  destruct Hs as [Hs1 Hs2].
  destruct (loading_run es (submit now1 w) Hs1 unsettled) as [H1 H2].
  subst w1. split; [exact H1 |].
  eexists. split; [rewrite H2; exact Hs2 | reflexivity].
Qed.

Lemma settle_resumes :
  app w2 = handleSend_resume now2 (generatePrompt_resume response) (app w1)
  /\ inflight w2 = [].
Proof.
  destruct submit_in_flight as (_ & q & Hq & _).
  subst w2. unfold settle. rewrite Hq. split; reflexivity.
Qed.


(** C3: when the call of a submit fails, exactly one message is appended to
    the list as it is then: an assistant message with the fixed error text
    and no result; and however the call settles, the loading flag is down
    afterwards and nothing is in flight any more. *)
Theorem submit_failure :
  isLoading (app w1) = true
  /\ isLoading (app w2) = false
  /\ inflight w2 = []
  /\ forall e,
       generatePrompt_resume response = Rejected e ->
       exists m,
         messages (app w2) = messages (app w1) ++ [m]
         /\ Message.role m = Message.assistant
         /\ Message.content m = error_text
         /\ Message.result m = None.
Proof.
  destruct settle_resumes as [Happ Hq].
  destruct submit_in_flight as [Hl _].
  split; [exact Hl |]. split; [rewrite Happ; reflexivity |].
  split; [exact Hq |].
  intros e He. rewrite He in Happ.
  exists (errorMessage now2). rewrite Happ. repeat split.
Qed.

End Submit.


Lemma submit_failure_witness :
  let w1 := run (submit (at_ 1000) (typed "hello")) [Type_ (lit "next")] in
  let w2 := settle network_down (at_ 1500) w1 in
  isLoading (app w2) = false
  /\ exists m, messages (app w2) = messages (app w1) ++ [m]
               /\ Message.content m = error_text /\ Message.result m = None.
Proof.
  cbv zeta.
  destruct (submit_failure (typed "hello") (at_ 1000) (at_ 1500)
              [Type_ (lit "next")] network_down
              (conj eq_refl eq_refl) ltac:(vm_compute; discriminate) eq_refl)
    as (_ & Hl & _ & H).
  split; [exact Hl |].
  destruct (H _ eq_refl) as (m & Hm & _ & Hc & Hr).
  exists m. auto.
Defined.


(* ------------------------------------------------------------------ *)
(** ** Which messages carry a result *)

Ltac attached :=
  unfold attached_result_spec; simpl;
  repeat match goal with
         | |- _ /\ _ => split
         | |- _ <-> _ => split
         end;
  intros;
  repeat match goal with
         | H : _ /\ _ |- _ => destruct H
         | H : exists _, _ |- _ => destruct H
         end;
  try congruence; try discriminate.

Lemma attached_user (now : Clock) (s : AppState) :
  attached_result_spec (userMessage now s) Typed.
Proof. attached. Qed.

Lemma attached_error (now : Clock) (e : Error) :
  attached_result_spec (errorMessage now) (Generated (Rejected e)).
Proof. attached. Qed.

Lemma attached_null (now : Clock) :
  attached_result_spec (errorMessage now) (Generated (Fulfilled JNull)).
Proof. attached. Qed.

Lemma attached_success (m : Message.t) (r : JSON.value) :
  r <> JNull ->
  Message.role m = Message.assistant -> Message.result m = Some r ->
  attached_result_spec m (Generated (Fulfilled r)).
Proof.
  intros Hn Hrole Hres. attached.
  split; [exact Hrole |]. exists r. split; [reflexivity | exact Hn].
Qed.

Lemma handleSend_resume_appends (now : Clock) (o : Completion JSON.value)
    (s : AppState) :
  exists m,
    messages (handleSend_resume now o s) = messages s ++ [m]
    /\ attached_result_spec m (Generated o).
Proof.
  destruct o as [r | e].
  - destruct (match r with JNull => true | _ => false end) eqn:Hr.
    + destruct r; try discriminate.
      exists (errorMessage (later 1 now)). split; [reflexivity | apply attached_null].
    + assert (Hn : r <> JNull) by (intros ->; discriminate).
      rewrite (handleSend_resume_success now r s Hn).
      eexists. split; [reflexivity |]. apply attached_success; auto.
  - exists (errorMessage now). split; [reflexivity | apply attached_error].
Qed.

Lemma step_origins_spec (w : World) (e : Event) (os : list Origin) :
  Forall2 attached_result_spec (messages (app w)) os ->
  Forall2 attached_result_spec (messages (app (step w e))) (step_origins w e os).
Proof.
  intros H. destruct e as [t | t | b | now | r now | c | t i | ms]; simpl; auto.
  - unfold submit, handleSend.
    destruct (isEmptyString _ || isLoading _); simpl; [exact H |].
    apply Forall2_app; [exact H |]. constructor; [apply attached_user | constructor].
  - unfold settle. destruct (inflight w); [exact H |]. cbn [app].
    destruct (handleSend_resume_appends now (generatePrompt_resume r) (app w))
      as (m & -> & Hm).
    apply Forall2_app; [exact H |]. constructor; [exact Hm | constructor].
  - destruct c; simpl; [constructor | exact H].
  - rewrite fold_clear_messages. exact H.
Qed.

Lemma run_origins_spec (es : list Event) (w : World) (os : list Origin) :
  Forall2 attached_result_spec (messages (app w)) os ->
  fst (run_origins w os es) = run w es
  /\ Forall2 attached_result_spec
       (messages (app (run w es))) (snd (run_origins w os es)).
Proof.
  revert w os; induction es as [| e es IH]; intros w os H; simpl; [auto |].
  apply IH, step_origins_spec, H.
Qed.

(** C9, amended: in every state of a session, with the origin of each
    message of the list beside it, a message has a result attached exactly
    when it is an assistant message produced by a call that succeeded with a
    result other than [null], and that result is the attached one; user
    messages, the assistant messages of failed calls and the assistant
    message of a call that succeeded with [null] carry none. *)
Theorem result_iff_assistant_success (key : option jsstring) (es : list Event) :
  fst (run_origins (boot key) [] es) = run (boot key) es
  /\ Forall2 attached_result_spec
       (messages (app (run (boot key) es)))
       (snd (run_origins (boot key) [] es)).
Proof. apply run_origins_spec. constructor. Qed.

(** C9 as stated fails: the assistant message of a call that succeeded with
    [null] has no result. *)
Lemma null_result_not_attached :
  let es := [Type_ (lit "hello"); Submit (at_ 1000);
             Settle (replies (lit "null")) (at_ 1500)] in
  snd (run_origins (boot None) [] es) = [Typed; Generated (Fulfilled JNull)]
  /\ ~ Forall2 claimed_result_spec
         (messages (app (run (boot None) es)))
         (snd (run_origins (boot None) [] es)).
Proof.
  cbv zeta. split; [reflexivity |].
  intros H. vm_compute in H.
  inversion H as [| u o us os' _ H' ]; subst.
  inversion H' as [| m o' ms os'' [_ Hm] _]; subst.
  apply Hm; [| reflexivity]. split; [reflexivity | eexists; reflexivity].
Qed.

(* ------------------------------------------------------------------ *)
(** ** Message ids *)

(** C6 fails on the code: the id of a user message is the clock reading at
    the submit, the id of an assistant message the clock reading at the
    settling plus one.  The user types the next input while the first call
    is in flight and submits it one millisecond after the reply has arrived:
    the second user message gets the id of the assistant message. *)
Theorem message_ids_collide :
  let es := [Type_ (lit "Write a viral LinkedIn post about AI");
             Submit (at_ 1000);
             Type_ (lit "Make it shorter");
             Settle (replies prompt_reply) (at_ 1500);
             Submit (at_ 1501)] in
  let w := run (boot None) es in
  map Message.id (messages (app w)) = [lit "1000"; lit "1501"; lit "1501"]
  /\ map Message.role (messages (app w))
     = [Message.user; Message.assistant; Message.user]
  /\ ~ NoDup (map Message.id (messages (app w))).
Proof.
  cbv zeta. split; [reflexivity |]. split; [reflexivity |].
  intros H. vm_compute in H.
  inversion H as [| x l _ H1]; subst.
  inversion H1 as [| y l' Hin _]; subst.
  apply Hin. left. reflexivity.
Qed.

(* ------------------------------------------------------------------ *)
(** ** The copied indicator *)







(* ================================================================== *)
(** * Further properties of the code *)
(* ================================================================== *)

(* ------------------------------------------------------------------ *)
(** ** When a submit is dropped *)

Lemma trimStart_nil (s : jsstring) :
  trimStart s = [] <-> forallb isWhiteSpace s = true.
Proof.
  induction s as [| c s IH]; simpl; [tauto |].
  destruct (isWhiteSpace c); simpl; [exact IH |].
  split; discriminate.
Qed.

Lemma trimStart_head (s r : jsstring) (c : N) :
  trimStart s = c :: r -> isWhiteSpace c = false.
Proof.
  induction s as [| d s IH]; simpl; [discriminate |].
  destruct (isWhiteSpace d) eqn:E; [exact IH |].
  intros H; injection H as -> _. exact E.
Qed.

Lemma trim_nil (s : jsstring) :
  trim s = [] <-> forallb isWhiteSpace s = true.
Proof.
  rewrite <- trimStart_nil. unfold trim, trimEnd. split.
  - intros H. destruct (trimStart s) as [| c r] eqn:E; [reflexivity |].
    apply (f_equal (@rev N)) in H. rewrite rev_involutive in H. simpl in H.
    apply trimStart_nil in H. rewrite forallb_app in H.
    apply andb_true_iff in H as [_ H]. simpl in H.
    rewrite (trimStart_head _ _ _ E) in H. discriminate.
  - intros ->. reflexivity.
Qed.

(** X1: a submit is dropped, with no call of [generatePrompt] made, exactly
    when the input consists of white space only (the empty input included)
    or a request is in flight; and this is exactly when the send button is
    disabled. *)
Theorem submit_dropped_iff (now : Clock) (s : AppState) :
  (snd (handleSend now s) = None <->
     forallb isWhiteSpace (inputValue s) = true \/ isLoading s = true)
  /\ (snd (handleSend now s) = None <-> sendDisabled s = true).
Proof.
  rewrite <- trim_nil, <- isEmptyString_true, <- orb_true_iff.
  unfold handleSend, sendDisabled.
  destruct (isEmptyString _ || isLoading s); simpl; repeat split;
    try reflexivity; try discriminate.
Qed.

(* ------------------------------------------------------------------ *)
(** ** One request per typed input *)

Lemma blank_step (w : World) (e : Event) :
  inputValue (app w) = [] -> is_Type e = false ->
  inputValue (app (step w e)) = [].
Proof.
  intros Hi He. destruct e as [t | t | b | now | r now | c | t i | ms];
    simpl in *; try discriminate; auto.
  - destruct (submit_dropped now w) as [_ E].
    + left. rewrite Hi. reflexivity.
    + rewrite E. exact Hi.
  - unfold settle. destruct (inflight w); [exact Hi |]. cbn [app].
    unfold handleSend_resume. destruct (try_block _ _) as [[m | e] k]; exact Hi.
  - destruct c; simpl; exact Hi.
  - rewrite fold_clear_inputValue. exact Hi.
Qed.

Lemma blank_run (es : list Event) (w : World) :
  inputValue (app w) = [] -> forallb (fun e => negb (is_Type e)) es = true ->
  inputValue (app (run w es)) = [].
Proof.
  revert w; induction es as [| e es IH]; intros w Hi Hes; simpl in *; [exact Hi |].
  apply andb_true_iff in Hes as [He Hes]. apply negb_true_iff in He.
  apply IH; [apply blank_step; assumption | exact Hes].
Qed.

(** X2: a submit that makes a call empties the input, and until the user
    types again every further submit is dropped, whether the call has settled
    by then or not: one typed input is sent at most once. *)
Theorem one_request_per_input (now now' : Clock) (w : World) (es : list Event) :
  trim (inputValue (app w)) <> [] -> isLoading (app w) = false ->
  forallb (fun e => negb (is_Type e)) es = true ->
  let w' := run (submit now w) es in
  inputValue (app w') = []
  /\ handleSend now' (app w') = (app w', None)
  /\ submit now' w' = w'.
Proof.
  intros Ht Hl Hes w'.
  assert (Hi : inputValue (app w') = []).
  { subst w'. apply blank_run; [| exact Hes].
    unfold submit. rewrite (handleSend_passes now (app w) Ht Hl). reflexivity. }
  split; [exact Hi |].
  apply submit_dropped. left. rewrite Hi. reflexivity.
Qed.

Lemma one_request_per_input_witness :
  let w' := run (submit (at_ 1000) (typed "hello"))
              [Settle (replies prompt_reply) (at_ 1500); SelectTarget CLAUDE] in
  submit (at_ 1600) w' = w'.
Proof.
  cbv zeta.
  refine (proj2 (proj2 (one_request_per_input (at_ 1000) (at_ 1600) (typed "hello")
            [Settle (replies prompt_reply) (at_ 1500); SelectTarget CLAUDE]
            _ eq_refl eq_refl))).
  vm_compute. discriminate.
Defined.

(* ------------------------------------------------------------------ *)
(** ** The message list only grows *)

Lemma step_messages (w : World) (e : Event) :
  messages (app (step w e)) = messages (app w)
  \/ (exists m, messages (app (step w e)) = messages (app w) ++ [m])
  \/ (e = ClearHistory true /\ messages (app (step w e)) = []).
Proof.
  destruct e as [t | t | b | now | r now | c | t i | ms]; simpl; auto.
  - unfold submit, handleSend.
    destruct (isEmptyString _ || isLoading _); simpl; [auto |].
    right; left. eexists. reflexivity.
  - unfold settle. destruct (inflight w); [auto |]. cbn [app].
    destruct (handleSend_resume_appends now (generatePrompt_resume r) (app w))
      as (m & -> & _).
    right; left. eexists. reflexivity.
  - destruct c; simpl; auto.
  - rewrite fold_clear_messages. auto.
Qed.

(** X3: over any events without a confirmed clear the message list keeps
    all its messages, unchanged and in place, and only grows at its end, by
    one message per event at most. *)
Theorem messages_append_only (w : World) (es : list Event) :
  forallb (fun e => negb (is_confirmed_clear e)) es = true ->
  exists added,
    messages (app (run w es)) = messages (app w) ++ added
    /\ (List.length added <= List.length es)%nat.
Proof.
  revert w; induction es as [| e es IH]; intros w Hes; simpl in *.
  - exists []. rewrite app_nil_r. split; [reflexivity | simpl; lia].
  - apply andb_true_iff in Hes as [He Hes]. apply negb_true_iff in He.
    destruct (IH (step w e) Hes) as (added & -> & Hlen).
    destruct (step_messages w e) as [-> | [(m & ->) | (-> & _)]].
    + exists added. split; [reflexivity | lia].
    + exists (m :: added). rewrite <- app_assoc. split; [reflexivity | simpl; lia].
    + discriminate.
Qed.

Lemma messages_append_only_witness :
  exists added,
    messages (app (run (typed "hello")
                     [Submit (at_ 1000); ClearHistory false;
                      Settle network_down (at_ 1500)]))
    = messages (app (typed "hello")) ++ added
    /\ (List.length added <= 3)%nat.
Proof.
  exact (messages_append_only (typed "hello")
           [Submit (at_ 1000); ClearHistory false; Settle network_down (at_ 1500)]
           eq_refl).
Defined.


(* ------------------------------------------------------------------ *)
(** ** The shape of the messages *)

Lemma handleSend_resume_shape (now : Clock) (o : Completion JSON.value)
    (s : AppState) :
  exists m k,
    messages (handleSend_resume now o s) = messages s ++ [m]
    /\ Message.role m = Message.assistant
    /\ well_formed m
    /\ Message.id m = Number_toString (now k + 1)
    /\ (k <= 1)%nat.
Proof.
  destruct o as [r | e].
  - destruct (match r with JNull => true | _ => false end) eqn:Hr.
    + destruct r; try discriminate.
      exists (errorMessage (later 1 now)), 1%nat. repeat split. lia.
    + assert (Hn : r <> JNull) by (intros ->; discriminate).
      rewrite (handleSend_resume_success now r s Hn).
      eexists. exists 0%nat. split; [reflexivity |].
      split; [reflexivity |]. split; [split; [exact Hn | reflexivity] |].
      split; [reflexivity | lia].
  - exists (errorMessage now), 0%nat. repeat split. lia.
Qed.

Lemma well_formed_step (w : World) (e : Event) :
  Forall well_formed (messages (app w)) ->
  Forall well_formed (messages (app (step w e))).
Proof.
  intros H. destruct e as [t | t | b | now | r now | c | t i | ms]; simpl; auto.
  - unfold submit, handleSend.
    destruct (isEmptyString _ || isLoading _); simpl; [exact H |].
    apply Forall_app. split; [exact H |]. constructor; [reflexivity | constructor].
  - unfold settle. destruct (inflight w); [exact H |]. cbn [app].
    destruct (handleSend_resume_shape now (generatePrompt_resume r) (app w))
      as (m & k & -> & _ & Hm & _).
    apply Forall_app. split; [exact H |]. constructor; [exact Hm | constructor].
  - destruct c; simpl; [constructor | exact H].
  - rewrite fold_clear_messages. exact H.
Qed.

Lemma well_formed_run (es : list Event) (w : World) :
  Forall well_formed (messages (app w)) ->
  Forall well_formed (messages (app (run w es))).
Proof.
  revert w; induction es as [| e es IH]; intros w H; simpl; [exact H |].
  apply IH, well_formed_step, H.
Qed.

(** X4: in every state of a session, the text of each model turn of the
    history that a submit would send is one of the three fixed texts of the
    component (the two acknowledgments and the error text): what the remote
    model generated earlier, prompt, questions, rationale or tip, is never
    sent back to it. *)
Theorem history_model_turns_fixed (key : option jsstring) (es : list Event) :
  Forall (fun c =>
            Api.role c = Api.user
            \/ exists t, Api.parts c = [ {| Api.text := t |} ]
                 /\ (t = clarification_text \/ t = architected_text
                     \/ t = error_text))
         (historyForApi (messages (app (run (boot key) es)))).
Proof.
  pose proof (well_formed_run es (boot key) (Forall_nil _)) as H.
  unfold historyForApi. apply Forall_map.
  eapply Forall_impl; [| exact H].
  intros m Hm. unfold well_formed in Hm. simpl.
  destruct (Message.role m); [left; reflexivity | right].
  eexists; split; [reflexivity |].
  destruct (Message.result m) as [r |].
  - destruct Hm as [_ ->]. destruct (ToBoolean _); auto.
  - auto.
Qed.

(** X5: in every state of a session and for every message of the list, the
    render never takes both the branch of the clarifying questions and the
    branch of the optimized prompt; it takes the first only under the
    clarification acknowledgment and the second, with its copy button, only
    under the "prompt architected" acknowledgment; and it takes neither for a
    user message or for the error message. *)
Theorem render_branches (key : option jsstring) (es : list Event) :
  Forall (fun m =>
            questionsBranch m && promptBranch m = false
            /\ (questionsBranch m = true ->
                Message.content m = clarification_text)
            /\ (promptBranch m = true ->
                Message.content m = architected_text)
            /\ (Message.role m = Message.user \/ Message.content m = error_text ->
                questionsBranch m = false /\ promptBranch m = false))
         (messages (app (run (boot key) es))).
Proof.
  pose proof (well_formed_run es (boot key) (Forall_nil _)) as H.
  eapply Forall_impl; [| exact H].
  intros m Hm. unfold well_formed in Hm.
  unfold questionsBranch, promptBranch.
  destruct (Message.role m) eqn:Hrole, (Message.result m) as [r |] eqn:Hres.
  - discriminate.
  - repeat split; discriminate.
  - destruct Hm as [Hn Hc].
    change (prop r (lit "isClarificationNeeded")) with (isClarificationNeeded r).
    rewrite Hc.
    assert (Hce : clarification_text <> error_text) by (vm_compute; discriminate).
    assert (Hae : architected_text <> error_text) by (vm_compute; discriminate).
    assert (Hca : clarification_text <> architected_text) by (vm_compute; discriminate).
    destruct (ToBoolean (isClarificationNeeded r)),
             (ToBoolean (Some r)),
             (ToBoolean (prop r (lit "clarifyingQuestions"))),
             (ToBoolean (prop r (lit "optimizedPrompt"))); simpl;
      intuition (try discriminate; try congruence).
  - repeat split; discriminate.
Qed.

(* ------------------------------------------------------------------ *)
(** ** Turn taking *)

Lemma turns_S (n : nat) :
  turns (S n) = turns n ++ [if Nat.even n then Message.user else Message.assistant].
Proof. unfold turns. rewrite seq_S, map_app. reflexivity. Qed.

Lemma api_turns_S (n : nat) :
  api_turns (S n) = api_turns n ++ [if Nat.even n then Api.user else Api.model].
Proof. unfold api_turns. rewrite seq_S, map_app. reflexivity. Qed.

Lemma historyForApi_turns (msgs : list Message.t) (n : nat) :
  map Message.role msgs = turns n ->
  map Api.role (historyForApi msgs) = api_turns n.
Proof.
  intros H. unfold historyForApi. rewrite map_map. simpl.
  rewrite <- (map_map Message.role
                (fun r => match r with
                          | Message.user => Api.user
                          | Message.assistant => Api.model
                          end)).
  rewrite H. unfold turns, api_turns. rewrite map_map.
  apply map_ext. intros i. destruct (Nat.even i); reflexivity.
Qed.

Lemma historyForApi_length (msgs : list Message.t) :
  List.length (historyForApi msgs) = List.length msgs.
Proof. apply length_map. Qed.

Lemma taking_turns_step (w : World) (e : Event) :
  taking_turns w -> is_confirmed_clear e = false -> taking_turns (step w e).
Proof.
  unfold taking_turns. intros [Hr Hl] He.
  destruct e as [t | t | b | now | r now | c | t i | ms]; simpl in *; auto.
  - unfold submit.
    destruct Hl as [(Hl & Hq & Hn) | (Hl & Hq & Hn)].
    + destruct (submit_dropped now w (or_intror Hl)) as (E & _). rewrite E.
      rewrite with_app_same. auto.
    + destruct (list_eq_dec N.eq_dec (trim (inputValue (app w))) []) as [Ht | Ht].
      * destruct (submit_dropped now w (or_introl Ht)) as (E & _). rewrite E.
        rewrite with_app_same. auto.
      * rewrite (handleSend_passes now (app w) Ht Hl). simpl.
        rewrite map_app, length_app, Nat.add_1_r, turns_S, Hr, Hn.
        rewrite Nat.even_succ, <- Nat.negb_even, Hn, Hq.
        split; [reflexivity |]. left.
        split; [reflexivity |]. split; [eexists; reflexivity | reflexivity].
  - unfold settle.
    destruct Hl as [(Hl & (q & Hq) & Hn) | (Hl & Hq & Hn)]; rewrite Hq; [| auto].
    cbn [app inflight].
    destruct (handleSend_resume_shape now (generatePrompt_resume r) (app w))
      as (m & k & Hm & Hrole & _).
    rewrite Hm, map_app, length_app, Nat.add_1_r, turns_S, Hr, Hn.
    rewrite Nat.even_succ, <- Nat.negb_even, Hn. cbn [map]. rewrite Hrole.
    split; [reflexivity |]. right.
    split; [reflexivity |]. split; reflexivity.
  - destruct c; [discriminate |]. simpl. auto.
  - rewrite fold_clear_messages, fold_clear_isLoading. auto.
Qed.

Lemma taking_turns_run (es : list Event) (w : World) :
  taking_turns w ->
  forallb (fun e => negb (is_confirmed_clear e)) es = true ->
  taking_turns (run w es).
Proof.
  revert w; induction es as [| e es IH]; intros w H Hes; simpl in *; [exact H |].
  apply andb_true_iff in Hes as [He Hes]. apply negb_true_iff in He.
  apply IH; [apply taking_turns_step; assumption | exact Hes].
Qed.

(** X6: in a session in which the list has not been cleared, the messages
    take turns, user first, a call is in flight exactly when the list ends
    with a user message, and the contents of the request of any submit take
    turns too, user and model, starting and ending with a user turn. *)
Theorem conversation_takes_turns (key : option jsstring) (es : list Event)
    (now : Clock) :
  forallb (fun e => negb (is_confirmed_clear e)) es = true ->
  let w := run (boot key) es in
  map Message.role (messages (app w)) = turns (List.length (messages (app w)))
  /\ isLoading (app w) = Nat.odd (List.length (messages (app w)))
  /\ match snd (handleSend now (app w)) with
     | None => True
     | Some call =>
         let contents :=
           Api.contents (generatePrompt_request (API_KEY w) (userInput call)
                           (target call) (history call)) in
         map Api.role contents = api_turns (List.length contents)
         /\ Nat.odd (List.length contents) = true
     end.
Proof.
  intros Hes w.
  assert (H : taking_turns w).
  { apply taking_turns_run; [| exact Hes].
    split; [reflexivity |]. right. repeat split. }
  destruct H as [Hr Hl]. split; [exact Hr |]. split.
  - rewrite <- Nat.negb_even.
    destruct Hl as [(-> & _ & ->) | (-> & _ & ->)]; reflexivity.
  - unfold handleSend.
    destruct (isEmptyString _ || isLoading _) eqn:G; simpl; [exact I |].
    apply orb_false_iff in G as [_ G].
    destruct Hl as [(Hl & _) | (_ & _ & Hn)]; [congruence |].
    cbn [generatePrompt_request Api.contents userInput target history].
    rewrite !length_app, historyForApi_length, Nat.add_1_r, api_turns_S, map_app.
    rewrite (historyForApi_turns _ _ Hr), Hn, Nat.odd_succ.
    split; [reflexivity | exact Hn].
Qed.

Lemma conversation_takes_turns_witness :
  let w := run (boot None)
             [Type_ (lit "hello"); Submit (at_ 1000);
              Settle network_down (at_ 1500); Type_ (lit "again")] in
  map Message.role (messages (app w)) = [Message.user; Message.assistant]
  /\ isLoading (app w) = false.
Proof.
  cbv zeta.
  destruct (conversation_takes_turns None
              [Type_ (lit "hello"); Submit (at_ 1000);
               Settle network_down (at_ 1500); Type_ (lit "again")]
              (at_ 1600) eq_refl) as (H1 & H2 & _).
  split; [exact H1 | exact H2].
Defined.

(* ------------------------------------------------------------------ *)
(** ** A request in flight *)

(** X7: in every state of a session at most one call is in flight, and the
    loading flag is up exactly while there is one. *)
Theorem at_most_one_call (key : option jsstring) (es : list Event) :
  let w := run (boot key) es in
  (List.length (inflight w) <= 1)%nat
  /\ (isLoading (app w) = true <-> inflight w <> []).
Proof.
  cbv zeta.
  destruct (one_call_in_flight (run (boot key) es)) as [(Hl & q & Hq) | (Hl & Hq)].
  - exists key, es. reflexivity.
  - rewrite Hl, Hq. simpl. split; [lia |]. split; [discriminate | reflexivity].
  - rewrite Hl, Hq. simpl. split; [lia |]. split; [discriminate | congruence].
Qed.


(** X8: the request of a submit is fixed when it is made: whatever happens
    while it is in flight (typing, selecting another target, clearing the
    history, copying, further submits), it stays the one request in flight,
    with the history and the target of the moment of the submit. *)
Theorem request_fixed_at_submit (w : World) (now : Clock) (es : list Event) :
  isLoading (app w) = false /\ inflight w = [] ->
  trim (inputValue (app w)) <> [] ->
  forallb (fun e => negb (is_Settle e)) es = true ->
  inflight (run (submit now w) es)
  = [generatePrompt_request (API_KEY w) (inputValue (app w))
       (targetModel (app w)) (historyForApi (messages (app w)))].
Proof.
  intros [Hl Hq] Ht Hes.
  assert (Hs : isLoading (app (submit now w)) = true
               /\ inflight (submit now w) =
                  [generatePrompt_request (API_KEY w) (inputValue (app w))
                     (targetModel (app w)) (historyForApi (messages (app w)))]).
  { unfold submit. rewrite (handleSend_passes now (app w) Ht Hl).
    simpl. rewrite Hq. split; reflexivity. }
  destruct Hs as [Hs1 Hs2].
  destruct (loading_run es (submit now w) Hs1 Hes) as [_ H2].
  rewrite H2. exact Hs2.
Qed.

Lemma request_fixed_at_submit_witness :
  map Api.contents
    (inflight (run (submit (at_ 1000) (typed "hello"))
                 [SelectTarget CLAUDE; Type_ (lit "more"); Submit (at_ 1100);
                  ClearHistory true]))
  = [[ {| Api.role := Api.user;
          Api.parts := [ {| Api.text := turn_text GENERAL (lit "hello") |} ] |} ]].
Proof.
  rewrite (request_fixed_at_submit (typed "hello") (at_ 1000)
             [SelectTarget CLAUDE; Type_ (lit "more"); Submit (at_ 1100);
              ClearHistory true]
             (conj eq_refl eq_refl) ltac:(vm_compute; discriminate) eq_refl).
  reflexivity.
Defined.



(* ------------------------------------------------------------------ *)
(** ** The copied indicator goes out *)







(* ------------------------------------------------------------------ *)
(** ** Distinct ids under a clock that keeps ahead *)

Lemma lit_inj (a b : string) : lit a = lit b -> a = b.
Proof.
  unfold lit. intros H.
  rewrite <- (string_of_list_ascii_of_string a), <- (string_of_list_ascii_of_string b).
  f_equal. revert H.
  generalize (list_ascii_of_string a) (list_ascii_of_string b).
  induction l as [| x l IH]; intros [| y l'] H; simpl in H;
    try discriminate; [reflexivity |].
  injection H as Hx Hl. f_equal; [| apply IH, Hl].
  rewrite <- (ascii_N_embedding x), <- (ascii_N_embedding y), Hx. reflexivity.
Qed.

Lemma to_int_not_nil (z : Z) :
  Z.to_int z <> Decimal.Pos Decimal.Nil /\ Z.to_int z <> Decimal.Neg Decimal.Nil.
Proof.
  split; intros H; pose proof (f_equal Z.of_int H) as Hz;
    rewrite DecimalZ.of_to in Hz; simpl in Hz; subst z; discriminate H.
Qed.

Lemma Number_toString_inj (a b : Z) :
  Number_toString a = Number_toString b -> a = b.
Proof.
  unfold Number_toString. intros H. apply lit_inj in H.
  apply (f_equal NilZero.int_of_string) in H.
  destruct (to_int_not_nil a) as [Ha1 Ha2], (to_int_not_nil b) as [Hb1 Hb2].
  rewrite !NilZero.isi in H by assumption.
  injection H as H. apply (f_equal Z.of_int) in H.
  rewrite !DecimalZ.of_to in H. exact H.
Qed.

Lemma ids_below_weaken (b b' : Z) (w : World) :
  b <= b' -> ids_below b w -> ids_below b' w.
Proof.
  intros Hb [Hn Hf]. split; [exact Hn |].
  eapply Forall_impl; [| exact Hf]. simpl.
  intros m (n & Hm & Hle). exists n. split; [exact Hm | lia].
Qed.

Lemma ids_below_snoc (b n : Z) (msgs : list Message.t) (m : Message.t) :
  NoDup (map Message.id msgs) ->
  Forall (fun m => exists n, Message.id m = Number_toString n /\ n <= b) msgs ->
  Message.id m = Number_toString n -> b < n ->
  NoDup (map Message.id (msgs ++ [m]))
  /\ Forall (fun m => exists k, Message.id m = Number_toString k /\ k <= n)
            (msgs ++ [m]).
Proof.
  intros Hn Hf Hm Hlt. split.
  - rewrite map_app. simpl.
    apply NoDup_app; [exact Hn | constructor; [intros [] | constructor] |].
    intros i Hi [<- | []].
    apply in_map_iff in Hi as (m' & Hid & Hin).
    rewrite Forall_forall in Hf. destruct (Hf m' Hin) as (k & Hk & Hle).
    rewrite Hm, Hk in Hid. apply Number_toString_inj in Hid. lia.
  - apply Forall_app. split.
    + eapply Forall_impl; [| exact Hf]. simpl.
      intros m' (k & Hk & Hle). exists k. split; [exact Hk | lia].
    + constructor; [| constructor]. exists n. split; [exact Hm | lia].
Qed.

Lemma ids_below_run (es : list Event) (b : Z) (w : World) :
  ids_below b w -> clock_ahead b es ->
  exists b', ids_below b' (run w es).
Proof.
  revert b w; induction es as [| e es IH]; intros b w Hw Hes; simpl in *;
    [eauto |].
  destruct e as [t | t | c | now | r now | c | t i | ms]; simpl in *;
    try (apply (IH b); [exact Hw | exact Hes]).
  - destruct Hes as [Hlt Hes]. apply (IH (now 0%nat)); [| exact Hes].
    unfold submit, handleSend.
    destruct (isEmptyString _ || isLoading _); simpl.
    + rewrite with_app_same. apply (ids_below_weaken b); [lia | exact Hw].
    + destruct Hw as [Hn Hf].
      apply (ids_below_snoc b); auto.
  - destruct Hes as (H0 & H1 & Hes).
    apply (IH (Z.max (now 0%nat) (now 1%nat) + 1)); [| exact Hes].
    unfold settle. destruct (inflight w).
    + apply (ids_below_weaken b); [lia | exact Hw].
    + destruct Hw as [Hn Hf].
      destruct (handleSend_resume_shape now (generatePrompt_resume r) (app w))
        as (m & k & Hm & _ & _ & Hid & Hk).
      unfold ids_below. cbn [app]. rewrite Hm.
      assert (Hle : now k <= Z.max (now 0%nat) (now 1%nat) /\ b <= now k).
      { destruct k as [| [| k]]; [lia | lia | lia]. }
      destruct (ids_below_snoc b (now k + 1) _ m Hn Hf Hid) as [G1 G2]; [lia |].
      split; [exact G1 |].
      eapply Forall_impl; [| exact G2]. simpl.
      intros m' (j & Hj & Hjle). exists j. split; [exact Hj | lia].
  - apply (IH b); [| exact Hes].
    destruct c; simpl; [| exact Hw]. split; constructor.
  - apply (IH b); [| exact Hes].
    destruct Hw as [Hn Hf]. split; simpl; rewrite fold_clear_messages; assumption.
Qed.

(** X11: the ids of the message list are pairwise distinct in every session
    whose clock keeps ahead of the ids given out: each submit reads a clock
    beyond every number an id was printed from so far (a reading, or a
    reading plus one for an assistant message), and each settling reads a
    clock not behind them. *)
Theorem ids_distinct_when_clock_ahead (key : option jsstring) (es : list Event)
    (b : Z) :
  clock_ahead b es ->
  NoDup (map Message.id (messages (app (run (boot key) es)))).
Proof.
  intros H.
  destruct (ids_below_run es b (boot key)) as (b' & Hn & _); [| exact H | exact Hn].
  split; constructor.
Qed.

Lemma ids_distinct_when_clock_ahead_witness :
  NoDup (map Message.id (messages (app (run (boot None)
    [Type_ (lit "Write a viral LinkedIn post about AI");
     Submit (at_ 1000);
     Type_ (lit "Make it shorter");
     Settle (replies prompt_reply) (at_ 1500);
     Submit (at_ 1502)])))).
Proof.
  apply (ids_distinct_when_clock_ahead None _ 0).
  simpl. unfold at_. repeat split; lia.
Defined.

(* ------------------------------------------------------------------ *)
(** ** The text of the new turn *)

(** X12: the text of the new turn of a request determines the target label
    and the user text: two calls send the same turn text only when they agree
    on both. *)
Theorem turn_text_inj (t1 t2 : ModelTarget) (u1 u2 : jsstring) :
  turn_text t1 u1 = turn_text t2 u2 <-> t1 = t2 /\ u1 = u2.
Proof.
  split; [| intros [-> ->]; reflexivity].
  unfold turn_text. intros H.
  apply app_inv_head in H.
  destruct t1, t2; cbn in H; try discriminate H;
    (split; [reflexivity |]);
    repeat (injection H as H); exact H.
Qed.

(* ------------------------------------------------------------------ *)
(** ** The sidebar *)

Lemma slice_last_length {A : Type} (n : nat) (xs : list A) :
  List.length (slice_last n xs) = Nat.min n (List.length xs).
Proof. unfold slice_last. rewrite length_skipn. lia. Qed.

(** X13: the sidebar lists user messages of the list only, ten at most, and
    exactly the most recent ones, the newest first: read backwards it is the
    end of the sequence of the user messages of the list. *)
Theorem recentSessions_spec (msgs : list Message.t) :
  let users := filter isUser msgs in
  List.length (recentSessions msgs) = Nat.min 10 (List.length users)
  /\ Forall (fun m => In m msgs /\ Message.role m = Message.user)
            (recentSessions msgs)
  /\ exists older,
       users = older ++ rev (recentSessions msgs)
       /\ List.length older = (List.length users - 10)%nat.
Proof.
  cbv zeta. unfold recentSessions.
  set (users := filter isUser msgs).
  split; [rewrite length_rev; apply slice_last_length |].
  assert (Hsplit : users = firstn (List.length users - 10) users
                           ++ slice_last 10 users).
  { unfold slice_last. symmetry. apply firstn_skipn. }
  split.
  - apply Forall_forall. intros m Hm. apply in_rev in Hm.
    assert (Hin : In m users).
    { rewrite Hsplit. apply in_or_app. right. exact Hm. }
    apply filter_In in Hin as [Hin Hu]. split; [exact Hin |].
    unfold isUser in Hu. destruct (Message.role m); [reflexivity | discriminate].
  - exists (firstn (List.length users - 10) users).
    rewrite rev_involutive. split; [exact Hsplit |].
    rewrite length_firstn. lia.
Qed.

(* ------------------------------------------------------------------ *)
(** ** What the user sees of a failure and of a result *)

(** X14: however a call fails, by an error of the remote call, whatever
    the error, or by a reply that is not JSON, the component ends in the same
    state: nothing of the error reaches the message list. *)
Theorem failures_look_alike (w : World) (now : Clock)
    (response1 response2 : Completion Api.Response) (e1 e2 : Error) :
  generatePrompt_resume response1 = Rejected e1 ->
  generatePrompt_resume response2 = Rejected e2 ->
  settle response1 now w = settle response2 now w.
Proof.
  intros H1 H2. unfold settle. rewrite H1, H2. reflexivity.
Qed.

Lemma failures_look_alike_witness :
  let w := run (typed "hello") [Submit (at_ 1000)] in
  settle network_down (at_ 1500) w
  = settle (replies (lit "Sorry, I cannot help.")) (at_ 1500) w.
Proof.
  cbv zeta.
  exact (failures_look_alike _ (at_ 1500) network_down
           (replies (lit "Sorry, I cannot help.")) _ _ eq_refl eq_refl).
Defined.

(** X15: for a message whose result has the shape of a [PromptResult], with
    the flag [b] and the prompt [p], the render takes the branch of the
    optimized prompt exactly when [b] is false and [p] is not empty, and the
    branch of the clarifying questions exactly when [b] is true and the
    list of questions is present, be it empty. *)
Theorem render_PromptResult (m : Message.t) (r : JSON.value) :
  Message.result m = Some r -> isPromptResult r = true ->
  exists b p,
    isClarificationNeeded r = Some (JBool b)
    /\ prop r (lit "optimizedPrompt") = Some (JString p)
    /\ promptBranch m = negb b && negb (isEmptyString p)
    /\ questionsBranch m =
         b && match prop r (lit "clarifyingQuestions") with
              | Some _ => true
              | None => false
              end.
Proof.
  intros Hres Hr. unfold promptBranch, questionsBranch. rewrite Hres.
  destruct r as [| | | | | ps]; try discriminate. simpl in *.
  apply andb_true_iff in Hr as [Hr Hb].
  apply andb_true_iff in Hr as [Hr Hq].
  apply andb_true_iff in Hr as [Hr _].
  apply andb_true_iff in Hr as [Hp _].
  destruct (obj_get (lit "optimizedPrompt") ps) as [[| | | p | |] |]; try discriminate.
  destruct (obj_get (lit "isClarificationNeeded") ps) as [[| b | | | |] |];
    try discriminate.
  exists b, p. split; [reflexivity |]. split; [reflexivity |]. split; [reflexivity |].
  destruct (obj_get (lit "clarifyingQuestions") ps) as [q |]; [| reflexivity].
  destruct q; try discriminate. reflexivity.
Qed.

Lemma render_PromptResult_witness :
  let m := {| Message.id := lit "1501"; Message.role := Message.assistant;
              Message.content := architected_text;
              Message.result := JSON.parse prompt_reply;
              Message.timestamp := 1500 |} in
  promptBranch m = true /\ questionsBranch m = false.
Proof.
  cbv zeta.
  destruct (render_PromptResult
              {| Message.id := lit "1501"; Message.role := Message.assistant;
                 Message.content := architected_text;
                 Message.result := JSON.parse prompt_reply;
                 Message.timestamp := 1500 |}
              _ eq_refl eq_refl) as (b & p & Hb & Hp & Hpb & Hqb).
  injection Hb as <-. injection Hp as <-. rewrite Hpb, Hqb. split; reflexivity.
Defined.
